(** * Reservation lifecycle and expiration engine

    A shallow embedding of the backend of the flash-sale reservation
    system: [ReservationsService] (create, findOne, complete, expire,
    recoverReservations, checkExpiredReservations), [ProductsService]
    (incrementStock) and the helpers of [reservation.utils.ts]
    (expireReservationsAndRestoreStock, scheduleExpirationJob).

    The code talks to two external systems, a PostgreSQL database through
    Prisma and a Redis job queue through BullMQ.  Both are modelled as
    finite maps keyed by the primary key (row id, job id).  Every
    [async] function of the source becomes a computation in a small
    state-and-exception monad; [await] is sequencing, [throw] is the
    exceptional outcome.

    Modelling conventions.
    - Timestamps are [Z], in milliseconds ([Date.getTime()]).  Every
      [new Date()] / [Date.now()] of the source is an explicit argument of
      the embedded function, one argument per read of the clock.
    - [availableStock] and [quantity] are [Z].  The PostgreSQL columns are
      32-bit and the JavaScript sums are doubles; the model does not bound
      them.
    - The [createdAt] / [updatedAt] columns and the descriptive columns of
      a product are written by the store only and never read by the code
      embedded here; they are left out of the rows.
    - The identifier of a new reservation is drawn by the store
      ([@default(uuid())]); it is an argument of [create], and the
      primary-key constraint is checked on insertion.
    - Logging has no effect on the state and is dropped. *)

From stdpp Require Import gmap strings list fin_maps pretty.
From Stdlib Require Import ZArith Lia Ascii.

#[local] Open Scope Z_scope.

(** ** Shared constants ([common/constants.ts]) *)

Inductive ReservationStatus : Type :=
  | ACTIVE
  | COMPLETED
  | EXPIRED.

#[global] Instance ReservationStatus_eq_dec : EqDecision ReservationStatus.
Proof. solve_decision. Defined.

Definition RESERVATION_DURATION_MS : Z := 2 * 60 * 1000.
Definition PERIODIC_CHECK_INTERVAL_MS : Z := 30 * 1000.
Definition RECOVERY_DELAY_MS : Z := 1000.
Definition JOB_RETRY_ATTEMPTS : Z := 3.
Definition JOB_RETRY_DELAY_MS : Z := 5000.

(** ** Data model (the Prisma schema) *)

(** A row of [products], without its primary key. *)
Record Product : Type := mkProduct {
  availableStock : Z
}.

(** A row of [reservations], without its primary key. *)
Record Reservation : Type := mkReservation {
  productId : string;
  quantity : Z;
  status : ReservationStatus;
  expiresAt : Z
}.

Definition setStatus (st : ReservationStatus) (r : Reservation) : Reservation :=
  {| productId := productId r; quantity := quantity r;
     status := st; expiresAt := expiresAt r |}.

Definition addStock (n : Z) (p : Product) : Product :=
  {| availableStock := availableStock p + n |}.

(** The database: two tables keyed by [id]. *)
Record Db : Type := mkDb {
  products : gmap string Product;
  reservations : gmap string Reservation
}.

(** A delayed BullMQ job of the queue "reservation-expiration".  The
    backoff type is always "exponential". *)
Record Job : Type := mkJob {
  jobName : string;
  reservationId : string;
  delay : Z;
  attempts : Z;
  backoffDelay : Z
}.

(** The process sees the committed database and the job queue (jobs keyed
    by [jobId]). *)
Record World : Type := mkWorld {
  store : Db;
  queue : gmap string Job
}.

(** Inside [prisma.$transaction(async (tx) => ...)]: [view] is what the
    transaction client [tx] reads and writes; [world] is what everybody
    else sees, and what a call through the outer client [this.prisma]
    writes.  Under PostgreSQL's default isolation a transaction reads what
    others have committed, so a write through the outer client reaches
    both.  (The code never writes through the outer client a row that the
    open transaction has written, which would block.) *)
Record TxState : Type := mkTx {
  world : World;
  view : Db
}.

(** ** Exceptions *)

Inductive Message : Type :=
  | ProductNotFound (productId : string)
      (* `Product with ID ${productId} not found` *)
  | InsufficientStock (available requested : Z)
      (* `Insufficient stock. Available: ${..}, Requested: ${..}` *)
  | ReservationNotFound (id : string)
      (* `Reservation with ID ${id} not found` *)
  | CannotComplete (current : ReservationStatus)
      (* `Cannot complete reservation. Current status: ${..}` *)
  | ReservationHasExpired.
      (* "Reservation has expired" *)

Inductive Exception : Type :=
  | NotFoundException (m : Message)
  | BadRequestException (m : Message)
  | RecordNotFound          (* Prisma P2025: update of a missing row *)
  | UniqueConstraintFailed. (* Prisma P2002: insert of an existing id *)

(** ** The monad of asynchronous computations over a state [S] *)

Inductive Outcome (A : Type) : Type :=
  | Return (a : A)
  | Throw (e : Exception).
Arguments Return {A} a.
Arguments Throw {A} e.

Definition Async (S A : Type) : Type := S → S * Outcome A.

Definition ret {S A} (a : A) : Async S A := λ s, (s, Return a).

Definition throw {S A} (e : Exception) : Async S A := λ s, (s, Throw e).

Definition bind {S A B} (m : Async S A) (k : A → Async S B) : Async S B :=
  λ s, match m s with
       | (s', Return a) => k a s'
       | (s', Throw e) => (s', Throw e)
       end.

(** [try { m } catch (error) { h error }] *)
Definition try_catch {S A} (m : Async S A) (h : Exception → Async S A) : Async S A :=
  λ s, match m s with
       | (s', Return a) => (s', Return a)
       | (s', Throw e) => h e s'
       end.

Declare Scope async_scope.
Delimit Scope async_scope with async.
Notation "'await' x <- m ; k" := (bind m (λ x, k))
  (at level 10, x name, m at level 100, k at level 200,
   format "'[v' 'await'  x  <-  m ; '/' k ']'") : async_scope.
Notation "'await_' m ; k" := (bind m (λ _, k))
  (at level 10, m at level 100, k at level 200,
   format "'[v' 'await_'  m ; '/' k ']'") : async_scope.
#[local] Open Scope async_scope.

(** ** The Prisma client, on a database *)

Module Prisma.

(** [product.findUnique({where: {id}})] *)
Definition product_findUnique (id : string) : Async Db (option Product) :=
  λ d, (d, Return (products d !! id)).

(** [product.update({where: {id}, data: {availableStock: {increment: n}}})] *)
Definition product_increment (id : string) (n : Z) : Async Db Product :=
  λ d, match products d !! id with
       | Some p =>
           ({| products := <[id := addStock n p]> (products d);
               reservations := reservations d |},
            Return (addStock n p))
       | None => (d, Throw RecordNotFound)
       end.

(** [product.update({where: {id}, data: {availableStock: {decrement: n}}})] *)
Definition product_decrement (id : string) (n : Z) : Async Db Product :=
  product_increment id (- n).

(** [reservation.findUnique({where: {id}})] *)
Definition reservation_findUnique (id : string) : Async Db (option Reservation) :=
  λ d, (d, Return (reservations d !! id)).

(** [reservation.findUnique({where: {id}, include: {product: true}})] *)
Definition reservation_findUnique_product (id : string)
  : Async Db (option (Reservation * option Product)) :=
  λ d, (d, Return (r ← reservations d !! id;
                   Some (r, products d !! productId r))).

(** The rows of [reservations] selected by a [where] clause, each with
    its id. *)
Definition rowsWhere (where_ : Reservation → bool)
    (rs : gmap string Reservation) : list (string * Reservation) :=
  map_to_list (filter (λ kr, where_ kr.2 = true) rs).

(** [reservation.findMany({where})] *)
Definition reservation_findMany (where_ : Reservation → bool)
  : Async Db (list (string * Reservation)) :=
  λ d, (d, Return (rowsWhere where_ (reservations d))).

(** [reservation.create({data})], the store drawing [newId]. *)
Definition reservation_create (newId : string) (data : Reservation)
  : Async Db (string * Reservation) :=
  λ d, match reservations d !! newId with
       | None =>
           ({| products := products d;
               reservations := <[newId := data]> (reservations d) |},
            Return (newId, data))
       | Some _ => (d, Throw UniqueConstraintFailed)
       end.

(** [reservation.update({where: {id}, data: {status}})] *)
Definition reservation_update (id : string) (st : ReservationStatus)
  : Async Db (string * Reservation) :=
  λ d, match reservations d !! id with
       | Some r =>
           ({| products := products d;
               reservations := <[id := setStatus st r]> (reservations d) |},
            Return (id, setStatus st r))
       | None => (d, Throw RecordNotFound)
       end.

(** [reservation.updateMany({where: {id: {in: ids}}, data: {status}})] *)
Definition reservation_updateMany (ids : list string) (st : ReservationStatus)
  : Async Db unit :=
  λ d, ({| products := products d;
           reservations :=
             map_imap (λ k r, Some (if bool_decide (k ∈ ids)
                                    then setStatus st r else r))
                      (reservations d) |},
        Return tt).

End Prisma.

(** ** Where a database call lands *)

(** A call on the outer client, outside any transaction. *)
Definition onStore {A} (m : Async Db A) : Async World A :=
  λ w, let '(d, o) := m (store w) in
       ({| store := d; queue := queue w |}, o).

(** A call on the transaction client [tx]. *)
Definition onTx {A} (m : Async Db A) : Async TxState A :=
  λ s, let '(d, o) := m (view s) in
       ({| world := world s; view := d |}, o).

(** A call on the outer client made while a transaction is open: it is
    committed on its own, at once, and the transaction sees it. *)
Definition outsideTx {A} (m : Async Db A) : Async TxState A :=
  λ s, let '(d, o) := m (store (world s)) in
       ({| world := {| store := d; queue := queue (world s) |};
           view := (m (view s)).1 |}, o).

(** A call on the job queue. *)
Definition onQueue {A} (m : Async (gmap string Job) A) : Async World A :=
  λ w, let '(q, o) := m (queue w) in
       ({| store := store w; queue := q |}, o).

(** A call on the job queue made while a transaction is open. *)
Definition onQueueInTx {A} (m : Async (gmap string Job) A) : Async TxState A :=
  λ s, let '(w, o) := onQueue m (world s) in
       ({| world := w; view := view s |}, o).

(** [prisma.$transaction(callback)]: the writes made through [tx] are
    committed when the callback returns and dropped when it throws
    (ARCHITECTURE.md: "If any operation fails, entire transaction rolls
    back"). *)
Definition transaction {A} (callback : Async TxState A) : Async World A :=
  λ w, match callback {| world := w; view := store w |} with
       | (s, Return a) =>
           ({| store := view s; queue := queue (world s) |}, Return a)
       | (s, Throw e) => (world s, Throw e)
       end.

(** ** The job queue (BullMQ) *)

Definition jobId (reservationId : string) : string :=
  "expire-" +:+ reservationId.

Module Queue.

(** [queue.getJob(jobId)] *)
Definition getJob (key : string) : Async (gmap string Job) (option Job) :=
  λ q, (q, Return (q !! key)).

(** [job.remove()] *)
Definition remove (key : string) : Async (gmap string Job) unit :=
  λ q, (delete key q, Return tt).

(** [queue.add(name, data, {jobId, ...})]: a job whose [jobId] is
    already in the queue is not added again (ARCHITECTURE.md: "Unique
    jobId prevents duplicate jobs"). *)
Definition add (key : string) (j : Job) : Async (gmap string Job) unit :=
  λ q, match q !! key with
       | Some _ => (q, Return tt)
       | None => (<[key := j]> q, Return tt)
       end.

End Queue.

Definition expirationJob (reservationId : string) (delay : Z) : Job :=
  {| jobName := "expire-reservation";
     reservationId := reservationId;
     delay := delay;
     attempts := JOB_RETRY_ATTEMPTS;
     backoffDelay := JOB_RETRY_DELAY_MS |}.

(** ** [reservations/utils/reservation.utils.ts] *)

(** [reservations.reduce((sum, res) => sum + res.quantity, 0)] *)
Definition totalQuantity (reservations : list (string * Reservation)) : Z :=
  foldl (λ sum res, sum + quantity res.2) 0 reservations.

#[global] Arguments totalQuantity : simpl never.

(** [expireReservationsAndRestoreStock(prisma, reservations, productId)] *)
Definition expireReservationsAndRestoreStock
    (reservations : list (string * Reservation)) (pid : string)
  : Async Db unit :=
  if decide (length reservations = 0%nat) then ret tt
  else
    await_ Prisma.reservation_updateMany (reservations.*1) EXPIRED;
    await_ Prisma.product_increment pid (totalQuantity reservations);
    ret tt.

(** [scheduleExpirationJob(queue, reservationId, expiresAt, logger)];
    [now] is the [new Date()] read after the look-up of the job. *)
Definition scheduleExpirationJob (reservationId : string) (expiresAt now : Z)
  : Async (gmap string Job) unit :=
  try_catch
    (await existingJob <- Queue.getJob (jobId reservationId);
     match existingJob with
     | Some _ => ret tt
     | None =>
         let delay := Z.max 0 (expiresAt - now) in
         if 0 <? delay
         then Queue.add (jobId reservationId) (expirationJob reservationId delay)
         else ret tt
     end)
    (λ error, ret tt).

(** ** [ProductsService] *)

(** [incrementStock(productId, quantity)]: an update on [this.prisma],
    the outer client. *)
Definition incrementStock (pid : string) (qty : Z) : Async Db Product :=
  Prisma.product_increment pid qty.

(** ** [ReservationsService] *)

(** The [where] clause of the lazy expiration of [create]:
    [{productId, status: ACTIVE, expiresAt: {lte: now}}]. *)
Definition staleOf (pid : string) (now : Z) (r : Reservation) : bool :=
  bool_decide (productId r = pid) && bool_decide (status r = ACTIVE)
  && (expiresAt r <=? now).

(** The callback of the transaction of [create].  [now] is the
    [new Date()] of its first line, [dateNow] the later [Date.now()]. *)
Definition create_callback (pid : string) (qty : Z) (newId : string)
    (now dateNow : Z) : Async TxState (string * Reservation) :=
  await expiredReservations <- onTx (Prisma.reservation_findMany (staleOf pid now));
  await_ (if decide (0 < length expiredReservations)%nat
          then onTx (expireReservationsAndRestoreStock expiredReservations pid)
          else ret tt);
  await product <- onTx (Prisma.product_findUnique pid);
  match product with
  | None => throw (NotFoundException (ProductNotFound pid))
  | Some product =>
      if availableStock product <? qty
      then throw (BadRequestException
                    (InsufficientStock (availableStock product) qty))
      else
        let expiresAt := dateNow + RESERVATION_DURATION_MS in
        await newReservation <-
          onTx (Prisma.reservation_create newId
                  {| productId := pid; quantity := qty;
                     status := ACTIVE; expiresAt := expiresAt |});
        await_ onTx (Prisma.product_decrement pid qty);
        ret newReservation
  end.

(** [create({productId, quantity})]; [scheduleNow] is the clock read by
    [scheduleExpirationJob]. *)
Definition create (pid : string) (qty : Z) (newId : string)
    (now dateNow scheduleNow : Z) : Async World (string * Reservation) :=
  await reservation <- transaction (create_callback pid qty newId now dateNow);
  await_ onQueue (scheduleExpirationJob reservation.1
                    (expiresAt reservation.2) scheduleNow);
  ret reservation.

(** [findOne(id)] *)
Definition findOne (id : string)
  : Async World (string * Reservation * option Product) :=
  await reservation <- onStore (Prisma.reservation_findUnique_product id);
  match reservation with
  | None => throw (NotFoundException (ReservationNotFound id))
  | Some (r, p) => ret (id, r, p)
  end.

(** [getJob] then [remove], inside [try { } catch { warn }]. *)
Definition removeExistingJob (id : string) : Async (gmap string Job) unit :=
  try_catch
    (await job <- Queue.getJob (jobId id);
     match job with
     | Some _ => Queue.remove (jobId id)
     | None => ret tt
     end)
    (λ error, ret tt).

(** [complete(id)]; [now] is the [new Date()] of the deadline test. *)
Definition complete (id : string) (now : Z) : Async World (string * Reservation) :=
  transaction
    (await reservation <- onTx (Prisma.reservation_findUnique_product id);
     match reservation with
     | None => throw (NotFoundException (ReservationNotFound id))
     | Some (reservation, _) =>
         if decide (status reservation ≠ ACTIVE)
         then throw (BadRequestException (CannotComplete (status reservation)))
         else if expiresAt reservation <? now
         then
           await_ onTx (Prisma.reservation_update id EXPIRED);
           await_ outsideTx (incrementStock (productId reservation)
                               (quantity reservation));
           throw (BadRequestException ReservationHasExpired)
         else
           await updated <- onTx (Prisma.reservation_update id COMPLETED);
           await_ onQueueInTx (removeExistingJob id);
           ret updated
     end).

(** [expire(id)] *)
Definition expire (id : string) : Async World unit :=
  transaction
    (await reservation <- onTx (Prisma.reservation_findUnique id);
     match reservation with
     | None => ret tt
     | Some reservation =>
         if decide (status reservation = ACTIVE)
         then
           await_ onTx (Prisma.reservation_update id EXPIRED);
           await_ outsideTx (incrementStock (productId reservation)
                               (quantity reservation));
           ret tt
         else ret tt
     end).

(** [for (const x of xs) { await body(x) }] *)
Fixpoint forEach {S A} (xs : list A) (body : A → Async S unit) : Async S unit :=
  match xs with
  | [] => ret tt
  | x :: xs' => await_ body x; forEach xs' body
  end.

(** The body of the loop of [recoverReservations]. *)
Definition recoverOne (now : Z) (reservation : string * Reservation)
  : Async World unit :=
  if expiresAt reservation.2 <? now
  then expire reservation.1
  else
    let remainingTime := expiresAt reservation.2 - now in
    if 0 <? remainingTime
    then
      await_ onQueue (removeExistingJob reservation.1);
      onQueue (Queue.add (jobId reservation.1)
                 (expirationJob reservation.1 remainingTime))
    else ret tt.

(** [recoverReservations()]; [now] is its one [new Date()]. *)
Definition recoverReservations (now : Z) : Async World unit :=
  try_catch
    (await activeReservations <-
       onStore (Prisma.reservation_findMany
                  (λ r, bool_decide (status r = ACTIVE)));
     forEach activeReservations (recoverOne now))
    (λ error, ret tt).

(** [checkExpiredReservations()], the periodic sweep. *)
Definition checkExpiredReservations (now : Z) : Async World unit :=
  try_catch
    (await expiredReservations <-
       onStore (Prisma.reservation_findMany
                  (λ r, bool_decide (status r = ACTIVE) && (expiresAt r <=? now)));
     if decide (0 < length expiredReservations)%nat
     then forEach expiredReservations (λ reservation, expire reservation.1)
     else ret tt)
    (λ error, ret tt).

(** * Reading the state *)

(** The stock of a product, as every client sees it. *)
Definition stockOf (w : World) (pid : string) : option Z :=
  availableStock <$> products (store w) !! pid.

(** The status of a reservation, as every client sees it. *)
Definition statusOf (w : World) (id : string) : option ReservationStatus :=
  status <$> reservations (store w) !! id.

(** What an Active reservation gives back when it expires. *)
Definition restored (r : Reservation) (w : World) : World :=
  match products (store w) !! productId r with
  | Some p => {| store := {| products := <[productId r := addStock (quantity r) p]>
                                            (products (store w));
                             reservations := reservations (store w) |};
                 queue := queue w |}
  | None => w
  end.

(** The quantity of the rows that a [where] clause selects. *)
Definition quantityWhere (where_ : Reservation → bool)
    (rs : gmap string Reservation) : Z :=
  totalQuantity (Prisma.rowsWhere where_ rs).

(** The stock that the lazy expiration of step 1 of [create] gives back. *)
Definition freedStock (pid : string) (now : Z) (w : World) : Z :=
  quantityWhere (staleOf pid now) (reservations (store w)).

(** What step 1 of [create] makes of the reservations: the stale Active
    ones of the product are Expired, the others are as they were. *)
Definition lazilyExpired (pid : string) (now : Z)
    (rs : gmap string Reservation) : gmap string Reservation :=
  (λ r, if staleOf pid now r then setStatus EXPIRED r else r) <$> rs.

#[global] Arguments lazilyExpired : simpl never.

(** * Sequences of requests *)

(** The calls that reach the lifecycle manager, each with the clock reads
    (and, for [create], the id) it is served with. *)
Inductive Request : Type :=
  | Create (pid : string) (qty : Z) (newId : string) (now dateNow scheduleNow : Z)
  | Complete (id : string) (now : Z)
  | Expire (id : string).

Definition serve (w : World) (rq : Request) : World :=
  match rq with
  | Create pid qty newId now dateNow scheduleNow =>
      (create pid qty newId now dateNow scheduleNow w).1
  | Complete id now => (complete id now w).1
  | Expire id => (expire id w).1
  end.

Definition serveAll (w : World) (rqs : list Request) : World :=
  foldl serve w rqs.

(** The quantity of a product held by its Active and Completed
    reservations. *)
Definition holds (pid : string) (r : Reservation) : bool :=
  bool_decide (productId r = pid)
  && (bool_decide (status r = ACTIVE) || bool_decide (status r = COMPLETED)).

Definition heldQuantity (w : World) (pid : string) : Z :=
  quantityWhere (holds pid) (reservations (store w)).

(** Stocks and quantities are not negative. *)
Definition wellStocked (w : World) : Prop :=
  (∀ pid p, products (store w) !! pid = Some p → 0 ≤ availableStock p) ∧
  (∀ id r, reservations (store w) !! id = Some r → 0 ≤ quantity r).

(** [CreateReservationDto]: the quantity is at least 1. *)
Definition validRequest (rq : Request) : Prop :=
  match rq with
  | Create _ qty _ _ _ _ => 1 ≤ qty
  | _ => True
  end.

(** A [complete] is timely when it does not find its reservation Active
    and past the deadline. *)
Definition timely (w : World) (rq : Request) : Prop :=
  match rq with
  | Complete id now =>
      ∀ r, reservations (store w) !! id = Some r → status r = ACTIVE →
           now ≤ expiresAt r
  | _ => True
  end.

(** Every request of the sequence is valid, and timely in the world it is
    served in. *)
Fixpoint allTimely (w : World) (rqs : list Request) : Prop :=
  match rqs with
  | [] => True
  | rq :: rest => validRequest rq ∧ timely w rq ∧ allTimely (serve w rq) rest
  end.

Fixpoint allValid (rqs : list Request) : Prop :=
  match rqs with
  | [] => True
  | rq :: rest => validRequest rq ∧ allValid rest
  end.

(** The stock of the product and what its Active and Completed
    reservations hold add up to [S]. *)
Definition accountsFor (S : Z) (pid : string) (w : World) : Prop :=
  ∃ p, products (store w) !! pid = Some p ∧
       availableStock p + heldQuantity w pid = S.

(** A row of a query result that recovery expires, of product [pid]. *)
Definition expiredBy (now : Z) (pid : string) (kr : string * Reservation) : Prop :=
  productId kr.2 = pid ∧ expiresAt kr.2 < now.

#[global] Instance expiredBy_dec now pid kr : Decision (expiredBy now pid kr).
Proof. unfold expiredBy. apply _. Defined.

(** The foreign key of the schema, for the Active reservations: the
    product of each of them exists. *)
Definition activeHaveProducts (w : World) : Prop :=
  ∀ k r, reservations (store w) !! k = Some r → status r = ACTIVE →
         is_Some (products (store w) !! productId r).

(** * Example worlds *)

(** One product, one unit in stock, nothing reserved. *)
Definition lastUnit : World :=
  {| store := {| products := {["P" := mkProduct 1]}; reservations := ∅ |};
     queue := ∅ |}.

(** A product that had five units, two of them held by the reservation
    "R1" made at time 0. *)
Definition held : Reservation :=
  {| productId := "P"; quantity := 2; status := ACTIVE; expiresAt := 120000 |}.

Definition oneHold : World :=
  {| store := {| products := {["P" := mkProduct 3]};
                 reservations := {["R1" := held]} |};
     queue := {[jobId "R1" := expirationJob "R1" 120000]} |}.

(** At restart, time 120000: three Active reservations, one past its
    deadline, one exactly at it, one with five seconds left; the queue was
    lost. *)
Definition atRestart : World :=
  {| store :=
       {| products := {["P" := mkProduct 0]};
          reservations :=
            {[ "RA" := {| productId := "P"; quantity := 1; status := ACTIVE;
                          expiresAt := 119000 |};
               "RB" := {| productId := "P"; quantity := 2; status := ACTIVE;
                          expiresAt := 120000 |};
               "RC" := {| productId := "P"; quantity := 3; status := ACTIVE;
                          expiresAt := 125000 |} ]} |};
     queue := ∅ |}.

(** "R1" has expired by the wall clock and nothing has run since. *)
Definition staleHold : World :=
  {| store := {| products := {["P" := mkProduct 3]};
                 reservations := {["R1" := held]} |};
     queue := ∅ |}.

(** * The worker and the products service *)

(** ** [ExpirationProcessor] *)

(** [process(job)]: [expire] of the reservation that the job names; an
    error is logged and thrown again, for the queue to retry. *)
Definition process (job : Job) : Async World unit :=
  try_catch (expire (reservationId job)) (λ error, throw error).

(** The queue delivers a job at least once: [n] deliveries in a row. *)
Fixpoint deliver (n : nat) (job : Job) (w : World) : World :=
  match n with
  | O => w
  | S n' => deliver n' job (process job w).1
  end.

(** The [where] clause of the periodic check:
    [{status: ACTIVE, expiresAt: {lte: now}}]. *)
Definition dueAt (now : Z) (r : Reservation) : bool :=
  bool_decide (status r = ACTIVE) && (expiresAt r <=? now).

(** ** [ProductsService.decrementStock] *)

(** What [decrementStock] throws: [NotFoundException] for the product,
    and a plain [Error] for the stock. *)
Inductive StockError : Type :=
  | StockProductNotFound (productId : string)
      (* `Product with ID ${productId} not found` *)
  | StockInsufficient (available requested : Z)
      (* `Insufficient stock. Available: ${..}, Requested: ${..}` *)
  | StockStoreError (e : Exception).
      (* what the update itself throws *)

(** [decrementStock(productId, quantity)].  Its transaction reads and
    writes through [tx] only, and both of its [throw]s come before its one
    write: what it commits is the update, or nothing. *)
Definition decrementStock (pid : string) (qty : Z)
  : Db → Db * (StockError + Product) :=
  λ d, match (Prisma.product_findUnique pid d).2 with
       | Return (Some product) =>
           if availableStock product <? qty
           then (d, inl (StockInsufficient (availableStock product) qty))
           else
             match Prisma.product_decrement pid qty d with
             | (d', Return updated) => (d', inr updated)
             | (_, Throw e) => (d, inl (StockStoreError e))
             end
       | _ => (d, inl (StockProductNotFound pid))
       end.

(** * The countdown of the client ([lib/reservation-timer.ts]) *)

(** Times are whole milliseconds.  [expirationTime] stands for
    [new Date(expiresAt).getTime()] and [now] for [Date.now()]. *)

(** [getRemainingTime(expiresAt)] *)
Definition getRemainingTime (expirationTime now : Z) : Z :=
  Z.max 0 (expirationTime - now).

(** [isExpired(expiresAt)] *)
Definition isExpired (expirationTime now : Z) : bool :=
  getRemainingTime expirationTime now =? 0.

(** [s.padStart(n, "0")] *)
Definition padStart0 (n : nat) (s : string) : string :=
  String.string_of_list_ascii (replicate (n - String.length s) "0"%char) +:+ s.

(** [formatTime(ms)]: [Math.floor] of a quotient is [Z.div], [%] is
    [Z.rem], [toString] of a whole number is its decimal notation. *)
Definition formatTime (ms : Z) : string :=
  let totalSeconds := ms / 1000 in
  let minutes := totalSeconds / 60 in
  let seconds := Z.rem totalSeconds 60 in
  padStart0 2 (pretty minutes) +:+ ":" +:+ padStart0 2 (pretty seconds).

(** * Properties *)

(** ** The rows that a query selects *)

Section rows.

Variables (where_ : Reservation → bool) (rs : gmap string Reservation).

Lemma elem_of_rowsWhere k r :
  (k, r) ∈ Prisma.rowsWhere where_ rs ↔ rs !! k = Some r ∧ where_ r = true.
Proof.
  unfold Prisma.rowsWhere.
  by rewrite elem_of_map_to_list, map_lookup_filter_Some.
Qed.

Lemma elem_of_rowsWhere_ids k :
  k ∈ (Prisma.rowsWhere where_ rs).*1 ↔ ∃ r, rs !! k = Some r ∧ where_ r = true.
Proof.
  rewrite list_elem_of_fmap. split.
  - intros [[k' r] [-> Hin]]. exists r. by apply elem_of_rowsWhere.
  - intros [r Hr]. exists (k, r). split; [done|]. by apply elem_of_rowsWhere.
Qed.

Lemma rowsWhere_nil :
  Prisma.rowsWhere where_ rs = [] →
  ∀ k r, rs !! k = Some r → where_ r = false.
Proof.
  intros Hnil k r Hr. destruct (where_ r) eqn:Hw; [|done].
  assert ((k, r) ∈ Prisma.rowsWhere where_ rs) as Hin
    by by apply elem_of_rowsWhere.
  rewrite Hnil in Hin. by apply elem_of_nil in Hin.
Qed.

End rows.

(** [updateMany] over the ids of the stale rows is the lazy expiration. *)
Lemma updateMany_stale pid now (rs : gmap string Reservation) :
  map_imap (λ k r, Some (if bool_decide
                              (k ∈ (Prisma.rowsWhere (staleOf pid now) rs).*1)
                         then setStatus EXPIRED r else r)) rs
  = lazilyExpired pid now rs.
Proof.
  apply map_eq. intros k. unfold lazilyExpired.
  rewrite map_lookup_imap, lookup_fmap.
  destruct (rs !! k) as [r|] eqn:Hr; cbn; [|done]. f_equal.
  destruct (staleOf pid now r) eqn:Hs.
  - rewrite bool_decide_eq_true_2; [done|].
    apply elem_of_rowsWhere_ids. by exists r.
  - rewrite bool_decide_eq_false_2; [done|].
    intros [r' [Hr' Hs']]%elem_of_rowsWhere_ids. congruence.
Qed.

(** With no stale row the lazy expiration changes nothing. *)
Lemma lazilyExpired_none pid now (rs : gmap string Reservation) :
  Prisma.rowsWhere (staleOf pid now) rs = [] → lazilyExpired pid now rs = rs.
Proof.
  intros Hnil. apply map_eq. intros k. unfold lazilyExpired.
  rewrite lookup_fmap. destruct (rs !! k) as [r|] eqn:Hr; cbn; [|done].
  by rewrite (rowsWhere_nil _ _ Hnil k r Hr).
Qed.

(** ** Quantities *)

Lemma totalQuantity_from (a : Z) (l : list (string * Reservation)) :
  foldl (λ sum res, sum + quantity res.2) a l = a + totalQuantity l.
Proof.
  unfold totalQuantity. revert a.
  induction l as [|x l IH]; intros a; cbn; [lia|].
  rewrite IH, (IH (0 + _)). lia.
Qed.

Lemma totalQuantity_cons x (l : list (string * Reservation)) :
  totalQuantity (x :: l) = quantity x.2 + totalQuantity l.
Proof. unfold totalQuantity at 1. cbn. rewrite totalQuantity_from. lia. Qed.

Lemma totalQuantity_perm (l l' : list (string * Reservation)) :
  l ≡ₚ l' → totalQuantity l = totalQuantity l'.
Proof.
  induction 1 as [|x l l' _ IH|x y l|l l' l'' _ IH1 _ IH2];
    rewrite ?totalQuantity_cons; lia.
Qed.

Section quantityWhere.

Variable where_ : Reservation → bool.

Lemma quantityWhere_empty : quantityWhere where_ ∅ = 0.
Proof.
  unfold quantityWhere, Prisma.rowsWhere.
  by rewrite map_filter_empty, map_to_list_empty.
Qed.

Lemma quantityWhere_insert (rs : gmap string Reservation) k v :
  rs !! k = None →
  quantityWhere where_ (<[k := v]> rs)
    = (if where_ v then quantity v else 0) + quantityWhere where_ rs.
Proof.
  intros Hk. unfold quantityWhere, Prisma.rowsWhere.
  destruct (where_ v) eqn:Hv.
  - rewrite map_filter_insert_True by done.
    assert (filter (λ kr : string * Reservation, where_ kr.2 = true) rs !! k
            = None) as Hf by (apply map_lookup_filter_None; by left).
    rewrite (totalQuantity_perm _ _ (map_to_list_insert _ k v Hf)).
    by rewrite totalQuantity_cons.
  - rewrite map_filter_insert_not'; [lia| |].
    + cbn. by rewrite Hv.
    + intros y Hy. congruence.
Qed.

Lemma quantityWhere_delete (rs : gmap string Reservation) k r :
  rs !! k = Some r →
  quantityWhere where_ rs
    = (if where_ r then quantity r else 0) + quantityWhere where_ (delete k rs).
Proof.
  intros Hk. rewrite <- (insert_delete_id rs k r) at 1 by done.
  apply quantityWhere_insert, lookup_delete_eq.
Qed.

Lemma quantityWhere_update (rs : gmap string Reservation) k r v :
  rs !! k = Some r →
  quantityWhere where_ (<[k := v]> rs)
    = quantityWhere where_ rs - (if where_ r then quantity r else 0)
      + (if where_ v then quantity v else 0).
Proof.
  intros Hk. rewrite <- insert_delete_eq.
  rewrite quantityWhere_insert by apply lookup_delete_eq.
  rewrite (quantityWhere_delete rs k r Hk). lia.
Qed.

End quantityWhere.

(** The lazy expiration of the product [pid] takes out of what is held
    exactly what it frees. *)
Lemma held_lazilyExpired pid pid' now (rs : gmap string Reservation) :
  quantityWhere (holds pid') (lazilyExpired pid now rs)
  = quantityWhere (holds pid') rs
    - (if decide (pid' = pid) then quantityWhere (staleOf pid now) rs else 0).
Proof.
  induction rs as [|k r rs Hk IH] using map_ind.
  - unfold lazilyExpired. rewrite fmap_empty, !quantityWhere_empty.
    case_decide; lia.
  - unfold lazilyExpired. rewrite fmap_insert.
    fold (lazilyExpired pid now rs).
    rewrite !quantityWhere_insert; [|done..|].
    2:{ unfold lazilyExpired. by rewrite lookup_fmap, Hk. }
    rewrite IH. unfold staleOf, holds, setStatus; cbn.
    repeat (case_bool_decide || case_decide || case_match);
      simplify_eq; cbn in *; try lia; try done.
Qed.

(** ** [expire] *)

Section expire.

Variables (w : World) (id : string).

Lemma expire_missing :
  reservations (store w) !! id = None → expire id w = (w, Return tt).
Proof.
  intros Hnone. destruct w as [[ps rs] q]; simpl in *.
  unfold expire, transaction, bind, onTx, Prisma.reservation_findUnique; simpl.
  by rewrite Hnone.
Qed.

Lemma expire_not_active r :
  reservations (store w) !! id = Some r → status r ≠ ACTIVE →
  expire id w = (w, Return tt).
Proof.
  intros Hr Hst. destruct w as [[ps rs] q]; simpl in *.
  unfold expire, transaction, bind, onTx, Prisma.reservation_findUnique; simpl.
  rewrite Hr. by destruct (decide (status r = ACTIVE)).
Qed.

Lemma expire_active r p :
  reservations (store w) !! id = Some r → status r = ACTIVE →
  products (store w) !! productId r = Some p →
  expire id w =
    ({| store := {| products := <[productId r := addStock (quantity r) p]>
                                  (products (store w));
                    reservations := <[id := setStatus EXPIRED r]>
                                      (reservations (store w)) |};
        queue := queue w |}, Return tt).
Proof.
  intros Hr Hst Hp. destruct w as [[ps rs] q]; simpl in *.
  unfold expire, transaction, bind, onTx, outsideTx, incrementStock,
    Prisma.reservation_findUnique, Prisma.reservation_update,
    Prisma.product_increment; simpl.
  rewrite Hr. destruct (decide (status r = ACTIVE)); [|done].
  cbn. rewrite Hr. cbn. by rewrite Hp.
Qed.

Lemma expire_active_no_product r :
  reservations (store w) !! id = Some r → status r = ACTIVE →
  products (store w) !! productId r = None →
  expire id w = (w, Throw RecordNotFound).
Proof.
  intros Hr Hst Hp. destruct w as [[ps rs] q]; simpl in *.
  unfold expire, transaction, bind, onTx, outsideTx, incrementStock,
    Prisma.reservation_findUnique, Prisma.reservation_update,
    Prisma.product_increment; simpl.
  rewrite Hr. destruct (decide (status r = ACTIVE)); [|done].
  cbn. rewrite Hr. cbn. by rewrite Hp.
Qed.

End expire.

(** A second [expire] finds a reservation that is no longer Active. *)
Lemma expire_twice (w : World) (id : string) :
  expire id (expire id w).1 = expire id w.
Proof.
  destruct (reservations (store w) !! id) as [r|] eqn:Hr.
  - destruct (decide (status r = ACTIVE)) as [Hst|Hst].
    + destruct (products (store w) !! productId r) as [p|] eqn:Hp.
      * rewrite (expire_active w id r p Hr Hst Hp). cbn.
        apply (expire_not_active _ _ (setStatus EXPIRED r)); cbn.
        -- apply lookup_insert_eq.
        -- discriminate.
      * rewrite (expire_active_no_product w id r Hr Hst Hp). cbn.
        by apply (expire_active_no_product w id r).
    + rewrite (expire_not_active w id r Hr Hst). cbn.
      by apply (expire_not_active w id r).
  - rewrite (expire_missing w id Hr). cbn. by apply expire_missing.
Qed.

(** Whatever [expire] throws, the world is as it was. *)
Lemma expire_throws_unchanged (w : World) (id : string) e :
  (expire id w).2 = Throw e → (expire id w).1 = w.
Proof.
  destruct (reservations (store w) !! id) as [r|] eqn:Hr.
  - destruct (decide (status r = ACTIVE)) as [Hst|Hst].
    + destruct (products (store w) !! productId r) as [p|] eqn:Hp.
      * by rewrite (expire_active w id r p Hr Hst Hp).
      * by rewrite (expire_active_no_product w id r Hr Hst Hp).
    + by rewrite (expire_not_active w id r Hr Hst).
  - by rewrite (expire_missing w id Hr).
Qed.

(** ** [complete] *)

Section complete.

Variables (w : World) (id : string) (now : Z).

(** The deadline has passed: the status written through [tx] is dropped
    by the [throw], the stock written through the outer client stays. *)
Lemma complete_past_deadline r p :
  reservations (store w) !! id = Some r → status r = ACTIVE →
  expiresAt r < now →
  products (store w) !! productId r = Some p →
  complete id now w =
    (restored r w, Throw (BadRequestException ReservationHasExpired)).
Proof.
  intros Hr Hst Hexp Hp. unfold restored. rewrite Hp.
  destruct w as [[ps rs] q]; simpl in *.
  unfold complete, transaction, bind, onTx, outsideTx, incrementStock, throw,
    Prisma.reservation_findUnique_product, Prisma.reservation_update,
    Prisma.product_increment; cbn.
  rewrite Hr; cbn. destruct (decide (status r ≠ ACTIVE)); [done|].
  destruct (Z.ltb_spec (expiresAt r) now); [|lia].
  cbn. rewrite Hr; cbn. by rewrite Hp.
Qed.

(** Before the deadline: Completed, the stock untouched, the pending job
    removed. *)
Lemma complete_in_time r :
  reservations (store w) !! id = Some r → status r = ACTIVE →
  now ≤ expiresAt r →
  complete id now w =
    ({| store := {| products := products (store w);
                    reservations := <[id := setStatus COMPLETED r]>
                                      (reservations (store w)) |};
        queue := delete (jobId id) (queue w) |},
     Return (id, setStatus COMPLETED r)).
Proof.
  intros Hr Hst Hexp.
  destruct w as [[ps rs] q]; simpl in *.
  unfold complete, transaction, bind, onTx, onQueueInTx, onQueue,
    removeExistingJob, try_catch, throw, ret,
    Prisma.reservation_findUnique_product, Prisma.reservation_update,
    Queue.getJob, Queue.remove; cbn.
  rewrite Hr; cbn. destruct (decide (status r ≠ ACTIVE)); [done|].
  destruct (Z.ltb_spec (expiresAt r) now); [lia|].
  cbn. rewrite Hr; cbn.
  destruct (q !! jobId id) eqn:Hj; cbn; [done|].
  by rewrite delete_id.
Qed.

Lemma complete_missing :
  reservations (store w) !! id = None →
  complete id now w = (w, Throw (NotFoundException (ReservationNotFound id))).
Proof.
  intros Hr. destruct w as [[ps rs] q]; simpl in *.
  unfold complete, transaction, bind, onTx, throw,
    Prisma.reservation_findUnique_product; cbn.
  by rewrite Hr.
Qed.

Lemma complete_not_active r :
  reservations (store w) !! id = Some r → status r ≠ ACTIVE →
  complete id now w
    = (w, Throw (BadRequestException (CannotComplete (status r)))).
Proof.
  intros Hr Hst. destruct w as [[ps rs] q]; simpl in *.
  unfold complete, transaction, bind, onTx, throw,
    Prisma.reservation_findUnique_product; cbn.
  rewrite Hr; cbn. by destruct (decide (status r ≠ ACTIVE)).
Qed.

Lemma complete_past_deadline_no_product r :
  reservations (store w) !! id = Some r → status r = ACTIVE →
  expiresAt r < now →
  products (store w) !! productId r = None →
  complete id now w = (w, Throw RecordNotFound).
Proof.
  intros Hr Hst Hexp Hp.
  destruct w as [[ps rs] q]; simpl in *.
  unfold complete, transaction, bind, onTx, outsideTx, incrementStock, throw,
    Prisma.reservation_findUnique_product, Prisma.reservation_update,
    Prisma.product_increment; cbn.
  rewrite Hr; cbn. destruct (decide (status r ≠ ACTIVE)); [done|].
  destruct (Z.ltb_spec (expiresAt r) now); [|lia].
  cbn. rewrite Hr; cbn. by rewrite Hp.
Qed.

End complete.

(** Every further late [complete] adds the quantity to the stock again. *)
Lemma complete_past_deadline_twice (w : World) (id : string) (now now' : Z)
    (r : Reservation) (p : Product) :
  reservations (store w) !! id = Some r → status r = ACTIVE →
  expiresAt r < now → expiresAt r < now' →
  products (store w) !! productId r = Some p →
  stockOf (complete id now' (complete id now w).1).1 (productId r)
    = Some (availableStock p + quantity r + quantity r).
Proof.
  intros Hr Hst Hlt Hlt' Hp.
  rewrite (complete_past_deadline w id now r p Hr Hst Hlt Hp). cbn.
  assert (products (store (restored r w)) !! productId r
          = Some (addStock (quantity r) p)) as Hp'.
  { unfold restored. rewrite Hp. cbn. apply lookup_insert_eq. }
  assert (reservations (store (restored r w)) !! id = Some r) as Hr'.
  { unfold restored. by rewrite Hp. }
  rewrite (complete_past_deadline _ id now' r _ Hr' Hst Hlt' Hp'). cbn.
  unfold stockOf. unfold restored at 1. rewrite Hp'. cbn.
  by rewrite lookup_insert_eq.
Qed.

(** ** [create] *)

Section create.

Variables (pid : string) (qty : Z) (newId : string).
Variables (now dateNow scheduleNow : Z).

(** The callback of [create] writes through [tx] only. *)
Lemma create_callback_world s :
  world (create_callback pid qty newId now dateNow s).1 = world s.
Proof.
  unfold create_callback, expireReservationsAndRestoreStock, bind, onTx,
    ret, throw, Prisma.reservation_findMany, Prisma.reservation_updateMany,
    Prisma.product_findUnique, Prisma.product_decrement,
    Prisma.product_increment, Prisma.reservation_create.
  repeat (cbn; case_match; simplify_eq; try done).
Qed.

(** Whatever [create] throws, it throws out of its transaction, and the
    world is as it was. *)
Lemma create_throws_unchanged w e :
  (create pid qty newId now dateNow scheduleNow w).2 = Throw e →
  (create pid qty newId now dateNow scheduleNow w).1 = w.
Proof.
  unfold create, bind, transaction at 1 2.
  pose proof (create_callback_world {| world := w; view := store w |}) as Hw.
  destruct (create_callback _ _ _ _ _ _) as [s [a|e']]; cbn in *.
  - unfold onQueue, scheduleExpirationJob, try_catch, bind, ret,
      Queue.getJob, Queue.add.
    repeat (cbn; case_match; simplify_eq; try done).
  - by intros _.
Qed.

(** What the transaction of [create] does once the stock check passed
    or failed, the product being there. *)
Lemma create_transaction w p :
  products (store w) !! pid = Some p →
  let available := availableStock p + freedStock pid now w in
  let r := {| productId := pid; quantity := qty; status := ACTIVE;
              expiresAt := dateNow + RESERVATION_DURATION_MS |} in
  let t := transaction (create_callback pid qty newId now dateNow) w in
  if available <? qty
  then t = (w, Throw (BadRequestException (InsufficientStock available qty)))
  else
    reservations (store w) !! newId = None →
    t.2 = Return (newId, r) ∧
    queue t.1 = queue w ∧
    reservations (store t.1) !! newId = Some r ∧
    products (store t.1) !! pid = Some (mkProduct (available - qty)).
Proof.
  intros Hp. unfold freedStock, quantityWhere.
  destruct w as [[ps rs] q]; cbn in *.
  unfold transaction, create_callback, expireReservationsAndRestoreStock,
    bind, onTx, ret, throw, Prisma.reservation_findMany,
    Prisma.reservation_updateMany, Prisma.product_findUnique,
    Prisma.product_decrement, Prisma.product_increment,
    Prisma.reservation_create; cbn.
  generalize (Prisma.rowsWhere (staleOf pid now) rs); intros rows.
  destruct (decide (0 < length rows)%nat) as [Hsome|Hnone]; cbn.
  - destruct (decide (length rows = 0%nat)); [exfalso; lia|]. cbn.
    rewrite Hp; cbn. rewrite lookup_insert_eq; cbn.
    destruct (Z.ltb_spec (availableStock p + totalQuantity rows) qty);
      [done|].
    intros Hnew. cbn. rewrite map_lookup_imap, Hnew; cbn.
    rewrite !lookup_insert_eq. unfold addStock; cbn.
    repeat split; rewrite ?lookup_insert_eq; try done; do 2 f_equal; lia.
  - destruct rows; [|exfalso; apply Hnone; simpl; lia]. rewrite Hp.
    change (totalQuantity []) with 0. rewrite Z.add_0_r.
    destruct (Z.ltb_spec (availableStock p) qty); [done|].
    intros Hnew. cbn. rewrite Hnew; cbn. rewrite Hp; cbn.
    rewrite !lookup_insert_eq. unfold addStock; cbn.
    repeat split; rewrite ?lookup_insert_eq; try done; do 2 f_equal; lia.
Qed.

(** The transaction of [create] either throws and leaves the world as
    it was, or commits the lazy expiration, the new reservation and the
    decremented stock. *)
Lemma create_transaction_cases w :
  match transaction (create_callback pid qty newId now dateNow) w with
  | (w', Throw e) => w' = w
  | (w', Return x) =>
      ∃ p, products (store w) !! pid = Some p ∧
           reservations (store w) !! newId = None ∧
           qty ≤ availableStock p + freedStock pid now w ∧
           x = (newId, {| productId := pid; quantity := qty; status := ACTIVE;
                          expiresAt := dateNow + RESERVATION_DURATION_MS |}) ∧
           w' = {| store :=
                     {| products :=
                          <[pid := mkProduct (availableStock p
                                              + freedStock pid now w - qty)]>
                            (products (store w));
                        reservations :=
                          <[newId := x.2]>
                            (lazilyExpired pid now (reservations (store w))) |};
                   queue := queue w |}
  end.
Proof.
  unfold freedStock, quantityWhere. destruct w as [[ps rs] q]; cbn.
  pose proof (updateMany_stale pid now rs) as Hupd.
  pose proof (lazilyExpired_none pid now rs) as Hnone.
  unfold transaction, create_callback, expireReservationsAndRestoreStock,
    bind, onTx, ret, throw, Prisma.reservation_findMany,
    Prisma.reservation_updateMany, Prisma.product_findUnique,
    Prisma.product_decrement, Prisma.product_increment,
    Prisma.reservation_create; cbn.
  revert Hupd Hnone.
  generalize (Prisma.rowsWhere (staleOf pid now) rs); intros rows Hupd Hnone.
  destruct (decide (0 < length rows)%nat) as [Hsome|Hempty]; cbn.
  - destruct (decide (length rows = 0%nat)); [exfalso; lia|]. cbn.
    rewrite Hupd.
    destruct (ps !! pid) as [p|] eqn:Hp; cbn; [|done].
    rewrite lookup_insert_eq; cbn.
    destruct (Z.ltb_spec (availableStock p + totalQuantity rows) qty); [done|].
    cbn.
    destruct (lazilyExpired pid now rs !! newId) as [r'|] eqn:Hnew; cbn;
      [done|].
    rewrite lookup_insert_eq; cbn. exists p.
    unfold lazilyExpired in Hnew. rewrite lookup_fmap in Hnew.
    destruct (rs !! newId); [done|].
    repeat (split; [done|]). rewrite insert_insert_eq.
    unfold addStock; cbn. do 3 f_equal; try (f_equal; lia).
  - destruct rows; [|exfalso; apply Hempty; simpl; lia].
    rewrite (Hnone eq_refl). clear Hupd Hnone.
    destruct (ps !! pid) as [p|] eqn:Hp; cbn; [|done].
    change (totalQuantity []) with 0.
    destruct (Z.ltb_spec (availableStock p) qty); [done|]. cbn.
    destruct (rs !! newId) as [r'|] eqn:Hnew; cbn; [done|].
    rewrite Hp; cbn. exists p.
    repeat (split; [done || lia|]).
    unfold addStock; cbn. do 3 f_equal; try (f_equal; lia).
Qed.

End create.

(** [create] either throws and leaves the world as it was, or returns and
    leaves the store that its transaction committed. *)
Lemma create_cases pid qty newId now dateNow scheduleNow w :
  match create pid qty newId now dateNow scheduleNow w with
  | (w', Throw e) => w' = w
  | (w', Return x) =>
      ∃ p, products (store w) !! pid = Some p ∧
           reservations (store w) !! newId = None ∧
           qty ≤ availableStock p + freedStock pid now w ∧
           x = (newId, {| productId := pid; quantity := qty; status := ACTIVE;
                          expiresAt := dateNow + RESERVATION_DURATION_MS |}) ∧
           store w' =
             {| products :=
                  <[pid := mkProduct (availableStock p
                                      + freedStock pid now w - qty)]>
                    (products (store w));
                reservations :=
                  <[newId := x.2]>
                    (lazilyExpired pid now (reservations (store w))) |}
  end.
Proof.
  pose proof (create_transaction_cases pid qty newId now dateNow w) as Ht.
  unfold create, bind.
  destruct (transaction _ w) as [w1 [x|e]]; [|done].
  destruct Ht as (p & Hp & Hnew & Hle & Hx & Hw1).
  unfold onQueue, ret; cbn.
  destruct (scheduleExpirationJob _ _ _ _) as [q' [[]|e]] eqn:Hs; cbn.
  - exists p. repeat (split; [done|]). by rewrite Hw1.
  - unfold scheduleExpirationJob, try_catch, bind, ret, Queue.getJob,
      Queue.add in Hs.
    repeat (cbn in Hs; case_match; simplify_eq).
Qed.

(** [create] against a stock that, with what step 1 frees, is still short:
    the error reports the stock as the transaction saw it, and the world
    is as before. *)
Lemma create_insufficient_stock pid qty newId now dateNow scheduleNow w p :
  products (store w) !! pid = Some p →
  availableStock p + freedStock pid now w < qty →
  create pid qty newId now dateNow scheduleNow w =
    (w, Throw (BadRequestException
                 (InsufficientStock (availableStock p + freedStock pid now w) qty))).
Proof.
  intros Hp Hlt. unfold create, bind.
  pose proof (create_transaction pid qty newId now dateNow w p Hp) as Ht.
  cbn zeta in Ht.
  destruct (Z.ltb_spec (availableStock p + freedStock pid now w) qty); [|lia].
  by rewrite Ht.
Qed.

(** ** [scheduleExpirationJob] *)

Section schedule.

Variables (q : gmap string Job) (id : string) (expiresAt now : Z).

Lemma schedule_pending :
  is_Some (q !! jobId id) →
  scheduleExpirationJob id expiresAt now q = (q, Return tt).
Proof.
  intros [j Hj].
  unfold scheduleExpirationJob, try_catch, bind, ret, Queue.getJob; cbn.
  by rewrite Hj.
Qed.

Lemma schedule_ahead :
  q !! jobId id = None → now < expiresAt →
  scheduleExpirationJob id expiresAt now q =
    (<[jobId id := expirationJob id (expiresAt - now)]> q, Return tt).
Proof.
  intros Hj Hlt.
  unfold scheduleExpirationJob, try_catch, bind, ret, Queue.getJob,
    Queue.add; cbn.
  rewrite Hj. rewrite Z.max_r by lia.
  destruct (Z.ltb_spec 0 (expiresAt - now)); [|lia].
  by rewrite Hj.
Qed.

Lemma schedule_due :
  q !! jobId id = None → expiresAt ≤ now →
  scheduleExpirationJob id expiresAt now q = (q, Return tt).
Proof.
  intros Hj Hle.
  unfold scheduleExpirationJob, try_catch, bind, ret, Queue.getJob; cbn.
  rewrite Hj. rewrite Z.max_l by lia. done.
Qed.

End schedule.

(** ** [findOne] *)

Lemma findOne_state (w : World) (id : string) : (findOne id w).1 = w.
Proof.
  destruct w as [d q].
  unfold findOne, bind, onStore, ret, throw,
    Prisma.reservation_findUnique_product; cbn.
  by destruct (reservations d !! id).
Qed.

Lemma findOne_found (w : World) (id : string) r :
  reservations (store w) !! id = Some r →
  (findOne id w).2 = Return (id, r, products (store w) !! productId r).
Proof.
  intros Hr. destruct w as [d q]; cbn in *.
  unfold findOne, bind, onStore, ret, throw,
    Prisma.reservation_findUnique_product; cbn.
  by rewrite Hr.
Qed.

(** ** [recoverReservations] *)

Section recover.

Variable now : Z.

Lemma recoverOne_past k r w :
  expiresAt r < now → recoverOne now (k, r) w = expire k w.
Proof.
  intros Hlt. unfold recoverOne; cbn.
  by destruct (Z.ltb_spec (expiresAt r) now); [|lia].
Qed.

Lemma recoverOne_at_deadline k r w :
  expiresAt r = now → recoverOne now (k, r) w = (w, Return tt).
Proof.
  intros <-. unfold recoverOne; cbn.
  rewrite Z.ltb_irrefl, Z.sub_diag. done.
Qed.

Lemma recoverOne_ahead k r w :
  now < expiresAt r →
  recoverOne now (k, r) w =
    ({| store := store w;
        queue := <[jobId k := expirationJob k (expiresAt r - now)]> (queue w) |},
     Return tt).
Proof.
  intros Hlt. unfold recoverOne; cbn.
  destruct (Z.ltb_spec (expiresAt r) now); [lia|].
  destruct (Z.ltb_spec 0 (expiresAt r - now)); [|lia].
  destruct w as [d q].
  unfold bind, onQueue, removeExistingJob, try_catch, ret, Queue.getJob,
    Queue.remove, Queue.add; cbn.
  destruct (q !! jobId k) eqn:Hj; cbn.
  - rewrite lookup_delete_eq. by rewrite insert_delete_eq.
  - by rewrite Hj.
Qed.

(** The loop of recovery, over rows that are in the store as the query
    returned them and whose products exist. *)
Lemma forEach_recoverOne (l : list (string * Reservation)) :
  NoDup l.*1 →
  ∀ w,
    (∀ k r, (k, r) ∈ l →
            reservations (store w) !! k = Some r ∧ status r = ACTIVE ∧
            is_Some (products (store w) !! productId r)) →
    let w' := (forEach l (recoverOne now) w).1 in
    (forEach l (recoverOne now) w).2 = Return tt ∧
    (∀ k, k ∉ l.*1 →
          reservations (store w') !! k = reservations (store w) !! k ∧
          queue w' !! jobId k = queue w !! jobId k) ∧
    (∀ k r, (k, r) ∈ l →
       (expiresAt r < now →
        reservations (store w') !! k = Some (setStatus EXPIRED r) ∧
        queue w' !! jobId k = queue w !! jobId k) ∧
       (expiresAt r = now →
        reservations (store w') !! k = Some r ∧
        queue w' !! jobId k = queue w !! jobId k) ∧
       (now < expiresAt r →
        reservations (store w') !! k = Some r ∧
        queue w' !! jobId k = Some (expirationJob k (expiresAt r - now)))) ∧
    (∀ pid, products (store w') !! pid
            = addStock (totalQuantity (filter (expiredBy now pid) l))
                <$> products (store w) !! pid).
Proof.
  induction l as [|[k0 r0] l IH]; intros Hnd w Hrows; cbn.
  - split; [done|]. split; [done|]. split.
    + intros k r Hin. by apply elem_of_nil in Hin.
    + intros pid. destruct (products (store w) !! pid) as [[a]|]; cbn; [|done].
      unfold addStock; cbn. change (totalQuantity []) with 0.
      by rewrite Z.add_0_r.
  - apply NoDup_cons in Hnd as [Hk0 Hnd]. cbn in Hk0.
    destruct (Hrows k0 r0) as (Hr0 & Hst0 & [p0 Hp0]); [by left|].
    (* the first row *)
    assert (∃ w1,
      recoverOne now (k0, r0) w = (w1, Return tt) ∧
      (∀ k, k ≠ k0 →
            reservations (store w1) !! k = reservations (store w) !! k ∧
            queue w1 !! jobId k = queue w !! jobId k) ∧
      reservations (store w1) !! k0
        = Some (if decide (expiresAt r0 < now) then setStatus EXPIRED r0 else r0) ∧
      queue w1 !! jobId k0
        = (if decide (now < expiresAt r0)
           then Some (expirationJob k0 (expiresAt r0 - now))
           else queue w !! jobId k0) ∧
      (∀ pid, products (store w1) !! pid
              = addStock (if decide (expiredBy now pid (k0, r0))
                          then quantity r0 else 0)
                  <$> products (store w) !! pid))
      as (w1 & Hstep & Hframe & Hat & Hjob & Hstock).
    { destruct (Z.lt_total (expiresAt r0) now) as [Hlt|[Heq|Hgt]].
      - rewrite (recoverOne_past _ _ _ Hlt).
        rewrite (expire_active w k0 r0 p0 Hr0 Hst0 Hp0).
        eexists; split; [done|]; cbn.
        split; [intros k Hk; by rewrite lookup_insert_ne|].
        rewrite lookup_insert_eq, decide_True by done.
        rewrite decide_False by lia. repeat (split; [done|]).
        intros pid. unfold expiredBy; cbn.
        destruct (decide (productId r0 = pid)) as [<-|Hne].
        + rewrite lookup_insert_eq, Hp0, decide_True by done. done.
        + rewrite lookup_insert_ne by done.
          rewrite decide_False by (by intros [? _]).
          destruct (products (store w) !! pid) as [[a]|]; cbn; [|done].
          unfold addStock; cbn. by rewrite Z.add_0_r.
      - rewrite (recoverOne_at_deadline _ _ _ Heq).
        eexists; split; [done|]. split; [done|].
        rewrite !decide_False by lia. repeat (split; [done|]).
        intros pid. rewrite decide_False by (unfold expiredBy; cbn; lia).
        destruct (products (store w) !! pid) as [[a]|]; cbn; [|done].
        unfold addStock; cbn. by rewrite Z.add_0_r.
      - rewrite (recoverOne_ahead _ _ _ Hgt).
        eexists; split; [done|]; cbn.
        split.
        { intros k Hk. split; [done|]. rewrite lookup_insert_ne; [done|].
          intros Heq. by apply (inj _) in Heq. }
        rewrite lookup_insert_eq, decide_False, decide_True by lia.
        repeat (split; [done|]).
        intros pid. rewrite decide_False by (unfold expiredBy; cbn; lia).
        destruct (products (store w) !! pid) as [[a]|]; cbn; [|done].
        unfold addStock; cbn. by rewrite Z.add_0_r. }
    (* the rest of the loop *)
    assert (∀ k r, (k, r) ∈ l → k ≠ k0) as Hne.
    { intros k r Hin ->. apply Hk0. apply list_elem_of_fmap.
      by exists (k0, r). }
    specialize (IH Hnd w1).
    destruct IH as (Hret & Hout & Hin & Hprod).
    { intros k r Hkr. destruct (Hrows k r) as (Hr & Hst & Hp); [by right|].
      destruct (Hframe k (Hne _ _ Hkr)) as [-> _].
      repeat (split; [done|]). rewrite Hstock.
      destruct Hp as [p ->]. by eexists. }
    unfold bind. rewrite Hstep. cbn in *.
    destruct (forEach l (recoverOne now) w1) as [w' o]; cbn in *.
    split; [done|]. split; [|split].
    + intros k Hk. apply not_elem_of_cons in Hk as [Hk Hkl].
      destruct (Hout k Hkl) as [-> ->]. by apply Hframe.
    + intros k r Hkr. apply elem_of_cons in Hkr as [[= -> ->]|Hkr].
      * destruct (Hout k0 Hk0) as [-> ->]. rewrite Hat, Hjob.
        repeat case_decide; repeat split; try done; lia.
      * destruct (Hframe k (Hne _ _ Hkr)) as [_ Hq].
        destruct (Hin k r Hkr) as (H1 & H2 & H3). rewrite <- Hq.
        done.
    + intros pid. rewrite Hprod, Hstock, <- option_fmap_compose.
      destruct (products (store w) !! pid) as [[a]|]; cbn; [|done].
      unfold addStock; cbn. do 2 f_equal.
      destruct (decide (expiredBy now pid (k0, r0))).
      * rewrite totalQuantity_cons. cbn. symmetry. apply Z.add_assoc.
      * by rewrite Z.add_0_r.
Qed.

End recover.

(** X25.  What recovery does, on a store whose Active reservations have
    their products: the Active reservations strictly past their deadline are
    Expired and their quantities are added to the stocks; those strictly
    before it are still Active and have a task with the remaining delay;
    those whose deadline is the very instant are still Active and the
    queue holds for them what it held before. *)
Lemma recover_effect (now : Z) (w : World) :
  activeHaveProducts w →
  let w' := (recoverReservations now w).1 in
  let active := Prisma.rowsWhere (λ r, bool_decide (status r = ACTIVE))
                  (reservations (store w)) in
  (recoverReservations now w).2 = Return tt ∧
  (∀ k r, reservations (store w) !! k = Some r → status r = ACTIVE →
     (expiresAt r < now → statusOf w' k = Some EXPIRED) ∧
     (expiresAt r = now →
      statusOf w' k = Some ACTIVE ∧ queue w' !! jobId k = queue w !! jobId k) ∧
     (now < expiresAt r →
      statusOf w' k = Some ACTIVE ∧
      queue w' !! jobId k = Some (expirationJob k (expiresAt r - now)))) ∧
  (∀ pid, stockOf w' pid
          = (λ a, a + totalQuantity (filter (expiredBy now pid) active))
              <$> stockOf w pid).
Proof.
  intros Hfk w' active. subst w'.
  pose proof (forEach_recoverOne now active) as Hloop.
  unfold recoverReservations, try_catch, bind, onStore,
    Prisma.reservation_findMany; cbn.
  fold active.
  replace {| store := store w; queue := queue w |} with w by by destruct w.
  destruct (Hloop (NoDup_fst_map_to_list _) w) as (Hret & _ & Hin & Hprod).
  { intros k r [Hr Hst%bool_decide_eq_true]%elem_of_rowsWhere.
    repeat (split; [done|]). by eapply Hfk. }
  clear Hloop. destruct (forEach active (recoverOne now) w) as [w' o].
  cbn in *. subst o. cbn. split; [done|]. split.
  - intros k r Hr Hst.
    destruct (Hin k r) as (Hpast & Hat & Hahead).
    { apply elem_of_rowsWhere. split; [done|]. by apply bool_decide_eq_true. }
    unfold statusOf. split; [|split].
    + intros Hlt. by destruct (Hpast Hlt) as [-> _].
    + intros Heq. destruct (Hat Heq) as [-> ->]. cbn. by rewrite Hst.
    + intros Hgt. destruct (Hahead Hgt) as [-> ->]. cbn. by rewrite Hst.
  - intros pid. unfold stockOf. rewrite Hprod, <- !option_fmap_compose.
    by destruct (products (store w) !! pid).
Qed.

(** ** Sequences of requests *)

Lemma holds_active pid r :
  status r = ACTIVE → holds pid r = bool_decide (productId r = pid).
Proof. intros Hst. unfold holds. rewrite Hst. cbn. apply andb_true_r. Qed.

Lemma holds_completed pid r :
  holds pid (setStatus COMPLETED r) = bool_decide (productId r = pid).
Proof. unfold holds; cbn. apply andb_true_r. Qed.

Lemma holds_expired pid r : holds pid (setStatus EXPIRED r) = false.
Proof. unfold holds; cbn. apply andb_false_r. Qed.

(** What [expire] does to the store, in one statement. *)
Lemma expire_cases (w : World) (id : string) :
  (expire id w).1 = w ∨
  ∃ r p, reservations (store w) !! id = Some r ∧ status r = ACTIVE ∧
         products (store w) !! productId r = Some p ∧
         (expire id w).1 =
           {| store := {| products := <[productId r := addStock (quantity r) p]>
                                        (products (store w));
                          reservations := <[id := setStatus EXPIRED r]>
                                            (reservations (store w)) |};
              queue := queue w |}.
Proof.
  destruct (reservations (store w) !! id) as [r|] eqn:Hr.
  - destruct (decide (status r = ACTIVE)) as [Hst|Hst].
    + destruct (products (store w) !! productId r) as [p|] eqn:Hp.
      * right. exists r, p. by rewrite (expire_active w id r p).
      * left. by rewrite (expire_active_no_product w id r).
    + left. by rewrite (expire_not_active w id r).
  - left. by rewrite expire_missing.
Qed.

(** What [complete] does to the store, in one statement. *)
Lemma complete_cases (w : World) (id : string) (now : Z) :
  (complete id now w).1 = w ∨
  ∃ r, reservations (store w) !! id = Some r ∧ status r = ACTIVE ∧
       ((expiresAt r < now ∧
         ∃ p, products (store w) !! productId r = Some p ∧
              (complete id now w).1 = restored r w) ∨
        (now ≤ expiresAt r ∧
         store (complete id now w).1 =
           {| products := products (store w);
              reservations := <[id := setStatus COMPLETED r]>
                                (reservations (store w)) |})).
Proof.
  destruct (reservations (store w) !! id) as [r|] eqn:Hr.
  - destruct (decide (status r = ACTIVE)) as [Hst|Hst].
    + destruct (Z.lt_ge_cases (expiresAt r) now) as [Hlate|Hok].
      * destruct (products (store w) !! productId r) as [p|] eqn:Hp.
        -- right. exists r. repeat (split; [done|]). left.
           split; [done|]. exists p.
           by rewrite (complete_past_deadline w id now r p).
        -- left. by rewrite (complete_past_deadline_no_product w id now r).
      * right. exists r. repeat (split; [done|]). right. split; [done|].
        by rewrite (complete_in_time w id now r).
    + left. by rewrite (complete_not_active w id now r).
  - left. by rewrite complete_missing.
Qed.

(** Stocks and quantities stay non-negative under every valid request,
    a late [complete] included. *)
Lemma serve_wellStocked (w : World) (rq : Request) :
  wellStocked w → validRequest rq → wellStocked (serve w rq).
Proof.
  intros [Hps Hrs] Hvalid. destruct rq as [pid qty newId now dateNow sn|id now|id];
    cbn in *.
  - pose proof (create_cases pid qty newId now dateNow sn w) as Hc.
    destruct (create _ _ _ _ _ _ w) as [w' [x|e]]; cbn; [|by subst].
    destruct Hc as (p & Hp & Hnew & Hle & -> & Hw'). cbn in Hw'.
    split; rewrite Hw'; cbn.
    + intros pid' p'. rewrite lookup_insert_Some.
      intros [[_ <-]|[_ Hp']]; cbn; [lia | by eapply Hps].
    + intros id' r'. rewrite lookup_insert_Some. unfold lazilyExpired.
      rewrite lookup_fmap_Some.
      intros [[_ <-]|[_ (r0 & <- & Hr0)]]; cbn; [lia|].
      specialize (Hrs _ _ Hr0). by destruct (staleOf pid now r0).
  - destruct (complete_cases w id now)
      as [->|(r & Hr & Hst & [(_ & p & Hp & ->)|(_ & Hw')])]; [done|..].
    + unfold restored. rewrite Hp. split; cbn; [|done].
      intros pid' p'. rewrite lookup_insert_Some.
      intros [[_ <-]|[_ Hp']]; cbn; [|by eapply Hps].
      specialize (Hps _ _ Hp). specialize (Hrs _ _ Hr). lia.
    + split; rewrite Hw'; cbn; [done|].
      intros id' r'. rewrite lookup_insert_Some.
      intros [[_ <-]|[_ Hr']]; cbn; by eapply Hrs.
  - destruct (expire_cases w id) as [->|(r & p & Hr & Hst & Hp & ->)]; [done|].
    split; cbn.
    + intros pid' p'. rewrite lookup_insert_Some.
      intros [[_ <-]|[_ Hp']]; cbn; [|by eapply Hps].
      specialize (Hps _ _ Hp). specialize (Hrs _ _ Hr). lia.
    + intros id' r'. rewrite lookup_insert_Some.
      intros [[_ <-]|[_ Hr']]; cbn; by eapply Hrs.
Qed.

(** A request that is not a late [complete] moves quantity between the
    stock and the reservations, and loses or makes none. *)
Lemma serve_accountsFor (S : Z) (pid : string) (w : World) (rq : Request) :
  accountsFor S pid w → timely w rq → accountsFor S pid (serve w rq).
Proof.
  intros (p & Hp & Hsum) Htimely. unfold accountsFor, heldQuantity in *.
  destruct rq as [pid0 qty newId now dateNow sn|id now|id]; cbn in *.
  - pose proof (create_cases pid0 qty newId now dateNow sn w) as Hc.
    destruct (create _ _ _ _ _ _ w) as [w' [x|e]]; cbn; [|subst; eauto].
    destruct Hc as (p0 & Hp0 & Hnew & Hle & -> & Hw'). cbn in Hw'.
    rewrite Hw'; cbn.
    rewrite quantityWhere_insert
      by (unfold lazilyExpired; by rewrite lookup_fmap, Hnew).
    rewrite held_lazilyExpired, holds_active by done. unfold freedStock. cbn.
    destruct (decide (pid = pid0)) as [->|Hne].
    + rewrite lookup_insert_eq. eexists; split; [done|]. cbn.
      rewrite bool_decide_eq_true_2 by done. cbn. simplify_eq. lia.
    + rewrite lookup_insert_ne by done. exists p; split; [done|].
      rewrite bool_decide_eq_false_2 by done. cbn. lia.
  - destruct (complete_cases w id now)
      as [->|(r & Hr & Hst & [(Hlate & _)|(_ & Hw')])]; [eauto|..].
    + specialize (Htimely r Hr Hst). lia.
    + rewrite Hw'; cbn. exists p; split; [done|].
      rewrite (quantityWhere_update _ _ id r) by done.
      rewrite holds_completed, holds_active by done.
      case_bool_decide; cbn; lia.
  - destruct (expire_cases w id) as [->|(r & p' & Hr & Hst & Hp' & ->)];
      [eauto|]. cbn.
    rewrite (quantityWhere_update _ _ id r) by done.
    rewrite holds_expired, holds_active by done.
    destruct (decide (productId r = pid)) as [<-|Hne].
    + rewrite lookup_insert_eq. eexists; split; [done|]. cbn.
      rewrite bool_decide_eq_true_2 by done. simplify_eq. lia.
    + rewrite lookup_insert_ne by done. exists p; split; [done|].
      rewrite bool_decide_eq_false_2 by done. lia.
Qed.

(** X23.  [availableStock] never goes negative: from a store whose
    stocks and quantities are not negative, every sequence of create (of
    at least one unit), complete and expire leads to such a store, late
    [complete]s included. *)
Lemma stock_never_negative (rqs : list Request) (w : World) :
  wellStocked w → allValid rqs → wellStocked (serveAll w rqs).
Proof.
  revert w. induction rqs as [|rq rqs IH]; intros w Hw Hv; cbn in *; [done|].
  destruct Hv as [Hrq Hv]. apply IH; [|done]. by apply serve_wellStocked.
Qed.

(** X24.  No overselling, as long as no [complete] arrives past the
    deadline of an Active reservation: the stock of a product and what its
    Active and Completed reservations hold keep adding up to what they
    added up to at the start, so what is held stays within it. *)
Lemma no_oversell_while_timely (S : Z) (pid : string) (rqs : list Request)
    (w : World) :
  wellStocked w → accountsFor S pid w → allTimely w rqs →
  heldQuantity (serveAll w rqs) pid ≤ S ∧
  accountsFor S pid (serveAll w rqs).
Proof.
  revert w. induction rqs as [|rq rqs IH]; intros w Hw Hacc Ht; cbn in *.
  - split; [|done]. destruct Hacc as (p & Hp & <-).
    destruct Hw as [Hps _]. specialize (Hps _ _ Hp). lia.
  - destruct Ht as (Hv & Hrq & Ht).
    apply IH; [by apply serve_wellStocked | by apply serve_accountsFor | done].
Qed.

(** The three lemmas above, at work on the example worlds. *)

Lemma wellStocked_lastUnit : wellStocked lastUnit.
Proof.
  split; cbn.
  - intros pid p [_ <-]%lookup_singleton_Some. cbn. lia.
  - intros id r Hr. by rewrite lookup_empty in Hr.
Qed.

Lemma no_oversell_while_timely_example :
  let w := serveAll lastUnit
             [ Create "P" 1 "R1" 0 0 0;
               Complete "R1" 60000;
               Create "P" 1 "R2" 60001 60001 60001;
               Expire "R1" ] in
  heldQuantity w "P" ≤ 1 ∧ accountsFor 1 "P" w.
Proof.
  apply no_oversell_while_timely.
  - apply wellStocked_lastUnit.
  - exists (mkProduct 1). by vm_compute.
  - cbn. repeat split; try lia.
    intros r Hr _. vm_compute in Hr. injection Hr as <-. cbn. lia.
Defined.

Lemma atRestart_products : activeHaveProducts atRestart.
Proof.
  intros k r Hr _.
  assert (map_Forall (λ _ r, productId r = "P")
            (reservations (store atRestart))) as Hall
    by (apply (bool_decide_unpack _); by vm_compute).
  rewrite (Hall k r Hr). by eexists.
Qed.

Lemma recover_effect_example :
  let w := (recoverReservations 120000 atRestart).1 in
  statusOf w "RA" = Some EXPIRED ∧
  (statusOf w "RB" = Some ACTIVE ∧ queue w !! jobId "RB" = None) ∧
  (statusOf w "RC" = Some ACTIVE ∧
   queue w !! jobId "RC" = Some (expirationJob "RC" 5000)).
Proof.
  destruct (recover_effect 120000 atRestart atRestart_products)
    as (_ & Hrows & _).
  cbn zeta in Hrows.
  destruct (Hrows "RA" (mkReservation "P" 1 ACTIVE 119000)) as (HA & _ & _);
    [by vm_compute | done |].
  destruct (Hrows "RB" (mkReservation "P" 2 ACTIVE 120000)) as (_ & HB & _);
    [by vm_compute | done |].
  destruct (Hrows "RC" (mkReservation "P" 3 ACTIVE 125000)) as (_ & _ & HC);
    [by vm_compute | done |].
  split; [by apply HA|]. split; [by apply HB | by apply HC].
Defined.

(** A run through the life of two reservations: a product with five
    units; [create] of two, [create] of ten refused, [complete] in time,
    [create] of one, and the sweep 121 seconds later. *)
Lemma scenario :
  let w0 := {| store := {| products := {["P" := mkProduct 5]};
                           reservations := ∅ |};
               queue := ∅ |} in
  let c1 := create "P" 2 "R1" 0 0 0 w0 in
  let c2 := create "P" 10 "R9" 1000 1000 1000 c1.1 in
  let c3 := complete "R1" 2000 c2.1 in
  let c4 := create "P" 1 "R2" 3000 3000 3000 c3.1 in
  let w5 := (checkExpiredReservations 124000 c4.1).1 in
  (statusOf c1.1 "R1" = Some ACTIVE ∧ stockOf c1.1 "P" = Some 3) ∧
  (c2.2 = Throw (BadRequestException (InsufficientStock 3 10)) ∧
   stockOf c2.1 "P" = Some 3) ∧
  (statusOf c3.1 "R1" = Some COMPLETED ∧ stockOf c3.1 "P" = Some 3) ∧
  (expiresAt <$> reservations (store c4.1) !! "R2" = Some 123000 ∧
   stockOf c4.1 "P" = Some 2) ∧
  (statusOf w5 "R2" = Some EXPIRED ∧ stockOf w5 "P" = Some 3).
Proof. vm_compute. done. Qed.

(** * The claims *)

(** C1 (fails on the code).  No overselling: over every sequence of
    create / complete / expire the quantity held by the Active and
    Completed reservations of a product stays within its initial stock.
    Here the product starts with one unit.  "R1" takes it; [complete]
    arrives one millisecond after the deadline, gives the unit back to the
    stock and, its transaction rolled back, leaves "R1" Active; the next
    [create] expires "R1", which gives the unit back a second time, and
    then holds two units of a stock of one. *)
Theorem oversell_after_late_complete :
  let w := serveAll lastUnit
             [ Create "P" 1 "R1" 0 0 0;
               Complete "R1" 120001;
               Create "P" 2 "R2" 120002 120002 120002 ] in
  stockOf lastUnit "P" = Some 1 ∧
  heldQuantity lastUnit "P" = 0 ∧
  statusOf w "R2" = Some ACTIVE ∧
  heldQuantity w "P" = 2 ∧
  ¬ heldQuantity w "P" ≤ 1 ∧
  stockOf w "P" = Some 0.
Proof. vm_compute. repeat split; done. Qed.

(** C2 (fails on the code).  [complete] on an Active reservation whose
    deadline has passed throws "Reservation has expired" and adds the
    quantity to the stock, but the reservation is left Active: the status
    was written through the transaction, which the exception rolls back,
    and the stock through the outer client. *)
Theorem complete_past_deadline_keeps_active (w : World) (id : string) (now : Z)
    (r : Reservation) (p : Product) :
  reservations (store w) !! id = Some r →
  status r = ACTIVE →
  expiresAt r < now →
  products (store w) !! productId r = Some p →
  (complete id now w).2 = Throw (BadRequestException ReservationHasExpired) ∧
  statusOf (complete id now w).1 id = Some ACTIVE ∧
  stockOf (complete id now w).1 (productId r)
    = Some (availableStock p + quantity r).
Proof.
  intros Hr Hst Hexp Hp.
  rewrite (complete_past_deadline w id now r p Hr Hst Hexp Hp).
  unfold statusOf, stockOf, restored. rewrite Hp. cbn.
  rewrite Hr, lookup_insert_eq. cbn. by rewrite Hst.
Qed.

Lemma complete_past_deadline_keeps_active_witness :
  (complete "R1" 120001 oneHold).2
    = Throw (BadRequestException ReservationHasExpired) ∧
  statusOf (complete "R1" 120001 oneHold).1 "R1" = Some ACTIVE ∧
  stockOf (complete "R1" 120001 oneHold).1 "P" = Some 5.
Proof.
  apply (complete_past_deadline_keeps_active oneHold "R1" 120001 held
           (mkProduct 3)); reflexivity.
Defined.

(** C3 (fails on the code).  A call that ends in an error leaves the stock
    as it was.  [complete] past the deadline ends in an error, the status
    it wrote is dropped, and the stock has moved from 3 to 5. *)
Theorem failed_complete_leaves_stock_write :
  (complete "R1" 120001 oneHold).2
    = Throw (BadRequestException ReservationHasExpired) ∧
  stockOf oneHold "P" = Some 3 ∧
  stockOf (complete "R1" 120001 oneHold).1 "P" = Some 5 ∧
  reservations (store (complete "R1" 120001 oneHold).1)
    = reservations (store oneHold).
Proof. vm_compute. done. Qed.

(** C4, as the spec states it, fails: "R1" is stale when [create] asks for
    ten units.  The lazy expiration frees two, the check sees five and
    throws, and the transaction takes the expiration back with it: "R1" is
    still Active and the stock is still 3. *)
Lemma create_insufficient_drops_lazy_expiration :
  let c := create "P" 10 "R2" 130000 130000 130000 staleHold in
  c.2 = Throw (BadRequestException (InsufficientStock 5 10)) ∧
  staleOf "P" 130000 held = true ∧
  statusOf staleHold "R1" = Some ACTIVE ∧
  statusOf c.1 "R1" ≠ Some EXPIRED ∧
  stockOf c.1 "P" ≠ Some 5.
Proof. vm_compute. repeat split; discriminate. Qed.

(** C4, amended.  When [create] fails with InsufficientStock nothing is
    committed: the lazy expiration of step 1 is rolled back with the rest
    of the transaction, so every reservation, including the stale Active
    ones, every stock and the job queue are as before the call. *)
Theorem create_insufficient_rolls_back (w : World) (pid : string) (qty : Z)
    (newId : string) (now dateNow scheduleNow : Z) (available requested : Z) :
  (create pid qty newId now dateNow scheduleNow w).2
    = Throw (BadRequestException (InsufficientStock available requested)) →
  (create pid qty newId now dateNow scheduleNow w).1 = w.
Proof. apply create_throws_unchanged. Qed.

Lemma create_insufficient_rolls_back_witness :
  (create "P" 10 "R2" 130000 130000 130000 staleHold).1 = staleHold.
Proof.
  apply (create_insufficient_rolls_back staleHold "P" 10 "R2"
           130000 130000 130000 5 10).
  vm_compute. reflexivity.
Defined.

(** C5.  [expire] is idempotent.  On a missing reservation, or on one that
    is not Active, it changes nothing and reports no error.  Run on the
    state that a first [expire] left, it leaves that state and returns
    what the first returned; and after the two runs the stock of the
    product has grown by the quantity once. *)
Theorem expire_idempotent (w : World) (id : string) :
  (reservations (store w) !! id = None → expire id w = (w, Return tt)) ∧
  (∀ r, reservations (store w) !! id = Some r → status r ≠ ACTIVE →
        expire id w = (w, Return tt)) ∧
  expire id (expire id w).1 = expire id w ∧
  (∀ r p, reservations (store w) !! id = Some r → status r = ACTIVE →
          products (store w) !! productId r = Some p →
          statusOf (expire id (expire id w).1).1 id = Some EXPIRED ∧
          stockOf (expire id (expire id w).1).1 (productId r)
            = Some (availableStock p + quantity r)).
Proof.
  split; [apply expire_missing|].
  split; [apply expire_not_active|].
  split; [apply expire_twice|].
  intros r p Hr Hst Hp. rewrite expire_twice.
  rewrite (expire_active w id r p Hr Hst Hp).
  unfold statusOf, stockOf; cbn. by rewrite !lookup_insert_eq.
Qed.

Lemma expire_idempotent_witness :
  expire "R1" (expire "R1" oneHold).1 = expire "R1" oneHold ∧
  statusOf (expire "R1" (expire "R1" oneHold).1).1 "R1" = Some EXPIRED ∧
  stockOf (expire "R1" (expire "R1" oneHold).1).1 "P" = Some 5 ∧
  expire "R0" oneHold = (oneHold, Return tt).
Proof.
  destruct (expire_idempotent oneHold "R1") as (_ & _ & Htwice & Honce).
  destruct (expire_idempotent oneHold "R0") as (Hmissing & _).
  split; [exact Htwice|].
  split; [|split].
  - apply (Honce held (mkProduct 3)); reflexivity.
  - apply (Honce held (mkProduct 3)); reflexivity.
  - apply Hmissing. reflexivity.
Defined.

(** C6.  When the product exists and its stock, with what step 1 frees,
    covers the quantity, [create] returns a new Active reservation that
    expires 120 seconds after the clock read at its creation, and leaves
    the stock of the product at that amount less the quantity.  The store
    draws an id that no reservation has. *)
Theorem create_reserves (w : World) (pid : string) (qty : Z) (newId : string)
    (now dateNow scheduleNow : Z) (p : Product) :
  products (store w) !! pid = Some p →
  reservations (store w) !! newId = None →
  qty ≤ availableStock p + freedStock pid now w →
  let r := {| productId := pid; quantity := qty; status := ACTIVE;
              expiresAt := dateNow + 120 * 1000 |} in
  let c := create pid qty newId now dateNow scheduleNow w in
  c.2 = Return (newId, r) ∧
  reservations (store c.1) !! newId = Some r ∧
  stockOf c.1 pid = Some (availableStock p + freedStock pid now w - qty).
Proof.
  intros Hp Hnew Hle r c. subst c. unfold create, bind.
  pose proof (create_transaction pid qty newId now dateNow w p Hp) as Ht.
  cbn zeta in Ht.
  destruct (Z.ltb_spec (availableStock p + freedStock pid now w) qty); [lia|].
  destruct (Ht Hnew) as (Hret & _ & Hr & Hstock). clear Ht.
  destruct (transaction _ w) as [w1 o]; cbn in *. subst o.
  unfold onQueue, ret; cbn.
  destruct (scheduleExpirationJob _ _ _ _) as [q' [[]|e]] eqn:Hs; cbn.
  - unfold stockOf; cbn. rewrite Hstock. done.
  - unfold scheduleExpirationJob, try_catch, bind, ret, Queue.getJob,
      Queue.add in Hs.
    repeat (cbn in Hs; case_match; simplify_eq).
Qed.

Lemma create_reserves_witness :
  let c := create "P" 5 "R2" 130000 130001 130002 staleHold in
  c.2 = Return ("R2", {| productId := "P"; quantity := 5; status := ACTIVE;
                         expiresAt := 130001 + 120 * 1000 |}) ∧
  reservations (store c.1) !! "R2"
    = Some {| productId := "P"; quantity := 5; status := ACTIVE;
              expiresAt := 130001 + 120 * 1000 |} ∧
  stockOf c.1 "P" = Some (3 + 2 - 5).
Proof.
  apply (create_reserves staleHold "P" 5 "R2" 130000 130001 130002
           (mkProduct 3)); vm_compute; congruence.
Defined.

(** C7 (fails on the code).  Recovery expires the Active reservations with
    [expiresAt <= now] and schedules the others.  At restart, "RA" is
    past its deadline and is expired, "RC" is ahead of it and gets its
    task with the remaining 5000 ms; "RB", whose deadline is the very
    instant, fails the test [now > expiresAt], then the test
    [remainingTime > 0]: it stays Active with no task. *)
Theorem recover_skips_reservation_at_deadline :
  let w := (recoverReservations 120000 atRestart).1 in
  statusOf atRestart "RB" = Some ACTIVE ∧
  expiresAt <$> reservations (store atRestart) !! "RB" = Some 120000 ∧
  statusOf w "RA" = Some EXPIRED ∧
  statusOf w "RB" = Some ACTIVE ∧
  queue w !! jobId "RB" = None ∧
  queue w = {[jobId "RC" := expirationJob "RC" 5000]} ∧
  stockOf w "P" = Some 1.
Proof. vm_compute. done. Qed.

(** C8, as the spec states it, fails: a call whose [expiresAt] is not
    ahead of the clock computes the delay 0 and enqueues nothing. *)
Lemma schedule_at_deadline_enqueues_nothing :
  (scheduleExpirationJob "R1" 120000 120000 ∅).1 !! jobId "R1" = None ∧
  (scheduleExpirationJob "R1" 120000 120000 ∅).1 !! jobId "R1"
    ≠ Some (expirationJob "R1" (Z.max 0 (120000 - 120000))).
Proof. vm_compute. split; [done | discriminate]. Qed.

(** C8, amended.  With no task pending under the key expire-<id>, a call
    whose [expiresAt] is ahead of the clock enqueues one task under that
    key with delay [expiresAt - now], and a call whose [expiresAt] is not
    ahead of it enqueues nothing; with a task pending under the key, the
    call changes nothing. *)
Theorem schedule_enqueues_when_ahead (q : gmap string Job) (id : string)
    (expiresAt now : Z) :
  (q !! jobId id = None → now < expiresAt →
   scheduleExpirationJob id expiresAt now q
     = (<[jobId id := expirationJob id (Z.max 0 (expiresAt - now))]> q,
        Return tt)) ∧
  (q !! jobId id = None → expiresAt ≤ now →
   scheduleExpirationJob id expiresAt now q = (q, Return tt)) ∧
  (is_Some (q !! jobId id) →
   scheduleExpirationJob id expiresAt now q = (q, Return tt)).
Proof.
  split; [|split].
  - intros Hj Hlt. rewrite Z.max_r by lia. by apply schedule_ahead.
  - apply schedule_due.
  - apply schedule_pending.
Qed.

Lemma schedule_enqueues_when_ahead_witness :
  scheduleExpirationJob "R1" 120000 0 ∅
    = ({[jobId "R1" := expirationJob "R1" 120000]}, Return tt) ∧
  scheduleExpirationJob "R1" 120000 120000 ∅ = (∅, Return tt) ∧
  scheduleExpirationJob "R1" 130000 10000 (queue oneHold)
    = (queue oneHold, Return tt).
Proof.
  destruct (schedule_enqueues_when_ahead ∅ "R1" 120000 0) as (Hahead & _ & _).
  destruct (schedule_enqueues_when_ahead ∅ "R1" 120000 120000)
    as (_ & Hdue & _).
  destruct (schedule_enqueues_when_ahead (queue oneHold) "R1" 130000 10000)
    as (_ & _ & Hpending).
  split; [|split].
  - apply Hahead; reflexivity.
  - apply Hdue; [reflexivity | discriminate].
  - apply Hpending. exists (expirationJob "R1" 120000). reflexivity.
Defined.

(** C9.  [findOne] writes nothing: the world after the call is the world
    before it.  A reservation that is Active and past its deadline is
    returned as it is stored, Active. *)
Theorem findOne_reads_only (w : World) (id : string) :
  (findOne id w).1 = w ∧
  (∀ r now, reservations (store w) !! id = Some r → status r = ACTIVE →
            expiresAt r < now →
            ∃ p, (findOne id w).2 = Return (id, r, p) ∧ status r = ACTIVE).
Proof.
  split; [apply findOne_state|].
  intros r now Hr Hst _. eexists. split; [by apply findOne_found | done].
Qed.

Lemma findOne_reads_only_witness :
  (findOne "R1" staleHold).1 = staleHold ∧
  ∃ p, (findOne "R1" staleHold).2 = Return ("R1", held, p) ∧
       status held = ACTIVE.
Proof.
  destruct (findOne_reads_only staleHold "R1") as [Hsame Hret].
  split; [exact Hsame|].
  apply (Hret held 130000); reflexivity.
Defined.

(** C10.  [expire] does not look at the deadline: on an Active
    reservation it sets Expired and adds the quantity to the stock of the
    product, also when the clock is still before [expiresAt]. *)
Theorem expire_ignores_deadline (w : World) (id : string) (r : Reservation)
    (p : Product) (now : Z) :
  reservations (store w) !! id = Some r →
  status r = ACTIVE →
  products (store w) !! productId r = Some p →
  now < expiresAt r →
  (expire id w).2 = Return tt ∧
  statusOf (expire id w).1 id = Some EXPIRED ∧
  stockOf (expire id w).1 (productId r) = Some (availableStock p + quantity r).
Proof.
  intros Hr Hst Hp _. rewrite (expire_active w id r p Hr Hst Hp).
  unfold statusOf, stockOf; cbn. by rewrite !lookup_insert_eq.
Qed.

Lemma expire_ignores_deadline_witness :
  (expire "R1" oneHold).2 = Return tt ∧
  statusOf (expire "R1" oneHold).1 "R1" = Some EXPIRED ∧
  stockOf (expire "R1" oneHold).1 "P" = Some 5.
Proof.
  apply (expire_ignores_deadline oneHold "R1" held (mkProduct 3) 1000);
    reflexivity.
Defined.

(** * Further properties *)

(** ** The life of a reservation *)

(** One request leaves every reservation in the store, with its product,
    quantity and deadline, and changes its status only away from
    Active. *)
Lemma serve_row (w : World) (rq : Request) (id : string) (r : Reservation) :
  reservations (store w) !! id = Some r →
  ∃ r', reservations (store (serve w rq)) !! id = Some r' ∧
        productId r' = productId r ∧ quantity r' = quantity r ∧
        expiresAt r' = expiresAt r ∧
        (status r ≠ ACTIVE → status r' = status r).
Proof.
  intros Hr. destruct rq as [pid qty newId now dateNow sn|id0 now|id0]; cbn.
  - pose proof (create_cases pid qty newId now dateNow sn w) as Hc.
    destruct (create _ _ _ _ _ _ w) as [w' [x|e]]; cbn; [|subst; eauto 10].
    destruct Hc as (p & Hp & Hnew & Hle & -> & Hw'). cbn in Hw'.
    rewrite Hw'; cbn.
    rewrite lookup_insert_ne by congruence.
    unfold lazilyExpired. rewrite lookup_fmap, Hr. cbn.
    eexists; split; [done|]. unfold staleOf.
    destruct (bool_decide (status r = ACTIVE)) eqn:Hst.
    + apply bool_decide_eq_true in Hst.
      by destruct (_ && _ && _).
    + by rewrite andb_false_r.
  - destruct (complete_cases w id0 now)
      as [->|(r0 & Hr0 & Hst & [(_ & p & Hp & ->)|(_ & Hw')])]; [eauto 10|..].
    + unfold restored. rewrite Hp. cbn. eauto 10.
    + rewrite Hw'; cbn. destruct (decide (id0 = id)) as [->|Hne].
      * rewrite lookup_insert_eq. simplify_eq. eexists; split; [done|].
        cbn. by repeat split.
      * rewrite lookup_insert_ne by done. eauto 10.
  - destruct (expire_cases w id0) as [->|(r0 & p & Hr0 & Hst & Hp & ->)];
      [eauto 10|]. cbn.
    destruct (decide (id0 = id)) as [->|Hne].
    + rewrite lookup_insert_eq. simplify_eq. eexists; split; [done|].
      cbn. by repeat split.
    + rewrite lookup_insert_ne by done. eauto 10.
Qed.

(** X1.  Through every sequence of create / complete / expire a
    reservation is never deleted and keeps its product, quantity and
    deadline; once Completed or Expired it keeps its status. *)
Theorem terminal_status_is_final (rqs : list Request) (w : World)
    (id : string) (r : Reservation) :
  reservations (store w) !! id = Some r →
  ∃ r', reservations (store (serveAll w rqs)) !! id = Some r' ∧
        productId r' = productId r ∧ quantity r' = quantity r ∧
        expiresAt r' = expiresAt r ∧
        (status r ≠ ACTIVE → status r' = status r).
Proof.
  revert w r. induction rqs as [|rq rqs IH]; intros w r Hr; cbn.
  - eauto 10.
  - destruct (serve_row w rq id r Hr) as (r1 & Hr1 & Hp & Hq & He & Hs).
    destruct (IH _ _ Hr1) as (r' & Hr' & Hp' & Hq' & He' & Hs').
    exists r'. split; [done|]. repeat split; try congruence.
    intros Hst. rewrite Hs', Hs; [done..|]. by rewrite Hs.
Qed.

Lemma terminal_status_is_final_witness :
  ∃ r', reservations
          (store (serveAll (complete "R1" 1000 oneHold).1
                    [ Expire "R1"; Complete "R1" 2000;
                      Create "P" 1 "R2" 130000 130000 130000 ])) !! "R1"
        = Some r' ∧
        productId r' = "P" ∧ quantity r' = 2 ∧ expiresAt r' = 120000 ∧
        (COMPLETED ≠ ACTIVE → status r' = COMPLETED).
Proof.
  apply (terminal_status_is_final _ (complete "R1" 1000 oneHold).1 "R1"
           (setStatus COMPLETED held)).
  vm_compute. reflexivity.
Defined.

(** ** [complete] *)

(** X2.  [complete] on an Active reservation whose deadline has not
    passed, the deadline instant included, returns the reservation
    Completed, leaves every stock and every other reservation as they
    were, and removes the pending expiration job of that reservation. *)
Theorem complete_before_deadline (w : World) (id : string) (now : Z)
    (r : Reservation) :
  reservations (store w) !! id = Some r →
  status r = ACTIVE →
  now ≤ expiresAt r →
  (complete id now w).2 = Return (id, setStatus COMPLETED r) ∧
  statusOf (complete id now w).1 id = Some COMPLETED ∧
  products (store (complete id now w).1) = products (store w) ∧
  (∀ id', id' ≠ id →
          reservations (store (complete id now w).1) !! id'
          = reservations (store w) !! id') ∧
  queue (complete id now w).1 = delete (jobId id) (queue w).
Proof.
  intros Hr Hst Hle. rewrite (complete_in_time w id now r Hr Hst Hle).
  unfold statusOf; cbn. rewrite lookup_insert_eq.
  repeat split; try done. intros id' Hne. by rewrite lookup_insert_ne.
Qed.

Lemma complete_before_deadline_witness :
  (complete "R1" 120000 oneHold).2 = Return ("R1", setStatus COMPLETED held) ∧
  statusOf (complete "R1" 120000 oneHold).1 "R1" = Some COMPLETED ∧
  products (store (complete "R1" 120000 oneHold).1) = products (store oneHold) ∧
  (∀ id', id' ≠ "R1" →
          reservations (store (complete "R1" 120000 oneHold).1) !! id'
          = reservations (store oneHold) !! id') ∧
  queue (complete "R1" 120000 oneHold).1 = delete (jobId "R1") (queue oneHold).
Proof.
  apply (complete_before_deadline oneHold "R1" 120000 held);
    [reflexivity | reflexivity | vm_compute; discriminate].
Defined.

(** X3.  [complete] on an id that no reservation has throws NotFound, and
    on a reservation that is Completed or Expired throws a bad request
    that names its status; in both cases nothing is written. *)
Theorem complete_rejects (w : World) (id : string) (now : Z) :
  (reservations (store w) !! id = None →
   complete id now w
     = (w, Throw (NotFoundException (ReservationNotFound id)))) ∧
  (∀ r, reservations (store w) !! id = Some r → status r ≠ ACTIVE →
        complete id now w
          = (w, Throw (BadRequestException (CannotComplete (status r))))).
Proof. split; [apply complete_missing | apply complete_not_active]. Qed.

Lemma complete_rejects_witness :
  complete "R0" 1000 oneHold
    = (oneHold, Throw (NotFoundException (ReservationNotFound "R0"))) ∧
  complete "R1" 1000 (expire "R1" oneHold).1
    = ((expire "R1" oneHold).1,
       Throw (BadRequestException (CannotComplete EXPIRED))).
Proof.
  destruct (complete_rejects oneHold "R0" 1000) as [Hmissing _].
  destruct (complete_rejects (expire "R1" oneHold).1 "R1" 1000) as [_ Hdone].
  split.
  - apply Hmissing. reflexivity.
  - apply (Hdone (setStatus EXPIRED held)); [reflexivity | discriminate].
Defined.

(** X4.  [complete] and [expire] on the same Active reservation, one after
    the other: the first one wins.  After a [complete] in time, [expire]
    changes nothing; after an [expire], [complete] is refused whatever the
    clock, and changes nothing. *)
Theorem first_transition_wins (w : World) (id : string) (now : Z)
    (r : Reservation) (p : Product) :
  reservations (store w) !! id = Some r →
  status r = ACTIVE →
  products (store w) !! productId r = Some p →
  (now ≤ expiresAt r →
   expire id (complete id now w).1 = ((complete id now w).1, Return tt)) ∧
  complete id now (expire id w).1
    = ((expire id w).1,
       Throw (BadRequestException (CannotComplete EXPIRED))).
Proof.
  intros Hr Hst Hp. split.
  - intros Hle. rewrite (complete_in_time w id now r Hr Hst Hle). cbn.
    apply (expire_not_active _ _ (setStatus COMPLETED r)); cbn.
    + apply lookup_insert_eq.
    + discriminate.
  - rewrite (expire_active w id r p Hr Hst Hp). cbn.
    apply (complete_not_active _ _ _ (setStatus EXPIRED r)); cbn.
    + apply lookup_insert_eq.
    + discriminate.
Qed.

Lemma first_transition_wins_witness :
  expire "R1" (complete "R1" 1000 oneHold).1
    = ((complete "R1" 1000 oneHold).1, Return tt) ∧
  complete "R1" 1000 (expire "R1" oneHold).1
    = ((expire "R1" oneHold).1,
       Throw (BadRequestException (CannotComplete EXPIRED))).
Proof.
  destruct (first_transition_wins oneHold "R1" 1000 held (mkProduct 3))
    as [Hc He]; [reflexivity..|].
  split; [apply Hc; vm_compute; discriminate | exact He].
Defined.

(** X5.  Every [complete] that arrives after the deadline of a reservation
    that nothing has expired yet throws, leaves the reservation Active and
    adds its quantity to the stock: [n] such calls add it [n] times. *)
Theorem late_completes_add_up (n : nat) (w : World) (id : string) (now : Z)
    (r : Reservation) (p : Product) :
  reservations (store w) !! id = Some r →
  status r = ACTIVE →
  expiresAt r < now →
  products (store w) !! productId r = Some p →
  statusOf (serveAll w (replicate n (Complete id now))) id = Some ACTIVE ∧
  stockOf (serveAll w (replicate n (Complete id now))) (productId r)
    = Some (availableStock p + Z.of_nat n * quantity r).
Proof.
  intros Hr Hst Hlt. revert w p Hr.
  induction n as [|n IH]; intros w p Hr Hp.
  - cbn. unfold statusOf, stockOf. rewrite Hr, Hp. cbn.
    rewrite Hst. split; [done|]. f_equal. lia.
  - cbn [replicate serveAll foldl serve].
    rewrite (complete_past_deadline w id now r p Hr Hst Hlt Hp). cbn [fst].
    assert (products (store (restored r w)) !! productId r
            = Some (addStock (quantity r) p)) as Hp'.
    { unfold restored. rewrite Hp. cbn. apply lookup_insert_eq. }
    assert (reservations (store (restored r w)) !! id = Some r) as Hr'.
    { unfold restored. by rewrite Hp. }
    destruct (IH _ _ Hr' Hp') as [Hs Hq]. unfold serveAll in *.
    split; [done|]. rewrite Hq. cbn. f_equal. lia.
Qed.

Lemma late_completes_add_up_witness :
  statusOf (serveAll oneHold (replicate 3 (Complete "R1" 120001))) "R1"
    = Some ACTIVE ∧
  stockOf (serveAll oneHold (replicate 3 (Complete "R1" 120001))) "P"
    = Some (3 + 3 * 2).
Proof.
  apply (late_completes_add_up 3 oneHold "R1" 120001 held (mkProduct 3));
    reflexivity.
Defined.

(** ** [create] *)

(** A query that no row satisfies returns no row. *)
Lemma rowsWhere_none (where_ : Reservation → bool)
    (rs : gmap string Reservation) :
  (∀ k r, rs !! k = Some r → where_ r = false) →
  Prisma.rowsWhere where_ rs = [].
Proof.
  intros Hnone. unfold Prisma.rowsWhere.
  apply map_to_list_empty_iff, map_empty. intros k.
  apply map_lookup_filter_None. right. intros r Hr. cbn.
  by rewrite (Hnone k r Hr).
Qed.

(** X6.  [create] for a product that does not exist, and that no
    reservation refers to, throws NotFound and writes nothing. *)
Theorem create_unknown_product (w : World) (pid : string) (qty : Z)
    (newId : string) (now dateNow scheduleNow : Z) :
  products (store w) !! pid = None →
  (∀ id r, reservations (store w) !! id = Some r → productId r ≠ pid) →
  create pid qty newId now dateNow scheduleNow w
    = (w, Throw (NotFoundException (ProductNotFound pid))).
Proof.
  intros Hp Hfk. destruct w as [[ps rs] q]; cbn in *.
  unfold create, bind, transaction, create_callback, onTx, throw, ret,
    Prisma.reservation_findMany, Prisma.product_findUnique; cbn.
  rewrite rowsWhere_none; cbn.
  { destruct (decide (0 < 0)%nat); [lia|]. cbn. by rewrite Hp. }
  intros k r Hr. unfold staleOf.
  rewrite bool_decide_eq_false_2; [done|]. by eapply Hfk.
Qed.

Lemma create_unknown_product_witness :
  create "Q" 1 "R2" 1000 1000 1000 oneHold
    = (oneHold, Throw (NotFoundException (ProductNotFound "Q"))).
Proof.
  apply (create_unknown_product oneHold "Q" 1 "R2" 1000 1000 1000).
  - reflexivity.
  - intros id r Hr. cbn in Hr.
    apply lookup_singleton_Some in Hr as [_ <-]. discriminate.
Defined.

(** X7.  A [create] that succeeds expires the Active reservations of its
    product whose deadline has passed, and no other: every other
    reservation is as it was, and so is the stock of every other
    product. *)
Theorem create_expires_only_stale (w : World) (pid : string) (qty : Z)
    (newId : string) (now dateNow scheduleNow : Z) (x : string * Reservation) :
  (create pid qty newId now dateNow scheduleNow w).2 = Return x →
  (∀ id, id ≠ newId →
         reservations (store (create pid qty newId now dateNow scheduleNow w).1)
           !! id
         = (λ r, if staleOf pid now r then setStatus EXPIRED r else r)
             <$> reservations (store w) !! id) ∧
  (∀ pid', pid' ≠ pid →
           products (store (create pid qty newId now dateNow scheduleNow w).1)
             !! pid'
           = products (store w) !! pid').
Proof.
  pose proof (create_cases pid qty newId now dateNow scheduleNow w) as Hc.
  destruct (create _ _ _ _ _ _ w) as [w' [y|e]]; cbn; [|done].
  intros _. destruct Hc as (p & Hp & Hnew & Hle & -> & Hw'). cbn in Hw'.
  rewrite Hw'; cbn. split.
  - intros id Hne. rewrite lookup_insert_ne by done.
    unfold lazilyExpired. by rewrite lookup_fmap.
  - intros pid' Hne. by rewrite lookup_insert_ne.
Qed.

(** Two reservations of "P", one of them stale at 130000, and one of
    another product, stale too. *)
Lemma create_expires_only_stale_witness :
  let w := {| store :=
                {| products := {["P" := mkProduct 3; "Q" := mkProduct 0]};
                   reservations :=
                     {[ "R1" := held;
                        "R3" := mkReservation "P" 1 ACTIVE 140000;
                        "R4" := mkReservation "Q" 1 ACTIVE 120000 ]} |};
              queue := ∅ |} in
  let w' := (create "P" 1 "R2" 130000 130000 130000 w).1 in
  (statusOf w' "R1" = Some EXPIRED ∧ statusOf w' "R3" = Some ACTIVE ∧
   statusOf w' "R4" = Some ACTIVE) ∧
  stockOf w' "Q" = Some 0.
Proof.
  intros w w'.
  destruct (create_expires_only_stale w "P" 1 "R2" 130000 130000 130000
              ("R2", mkReservation "P" 1 ACTIVE 250000)) as [Hrows Hstock];
    [vm_compute; reflexivity|].
  unfold statusOf, stockOf, w'.
  rewrite !Hrows, Hstock by discriminate. vm_compute. done.
Defined.

(** The queue that a [create] leaves, when it succeeds. *)
Lemma create_queue (w : World) (pid : string) (qty : Z) (newId : string)
    (now dateNow scheduleNow : Z) (x : string * Reservation) :
  (create pid qty newId now dateNow scheduleNow w).2 = Return x →
  queue (create pid qty newId now dateNow scheduleNow w).1
  = (scheduleExpirationJob newId (dateNow + RESERVATION_DURATION_MS)
       scheduleNow (queue w)).1.
Proof.
  pose proof (create_transaction_cases pid qty newId now dateNow w) as Ht.
  unfold create, bind.
  destruct (transaction _ w) as [w1 [y|e]]; [|done].
  destruct Ht as (p & Hp & Hnew & Hle & -> & ->). cbn.
  unfold onQueue; cbn.
  by destruct (scheduleExpirationJob _ _ _ _) as [q' [[]|e]].
Qed.

(** X8.  A [create] that succeeds leaves in the queue, under the key
    expire-<id> of the new reservation, a job whose delay is what is left
    of the 120 seconds when the job is scheduled; every other key of the
    queue is as it was.  When the 120 seconds are over by then, or when
    the key is taken, it adds no job. *)
Theorem create_schedules (w : World) (pid : string) (qty : Z) (newId : string)
    (now dateNow scheduleNow : Z) (x : string * Reservation) :
  (create pid qty newId now dateNow scheduleNow w).2 = Return x →
  let q' := queue (create pid qty newId now dateNow scheduleNow w).1 in
  (queue w !! jobId newId = None → scheduleNow < dateNow + 120 * 1000 →
   q' = <[jobId newId :=
            expirationJob newId (dateNow + 120 * 1000 - scheduleNow)]>
          (queue w)) ∧
  (dateNow + 120 * 1000 ≤ scheduleNow → q' = queue w) ∧
  (is_Some (queue w !! jobId newId) → q' = queue w).
Proof.
  intros Hret q'. subst q'. rewrite (create_queue _ _ _ _ _ _ _ _ Hret).
  change (120 * 1000) with RESERVATION_DURATION_MS.
  split; [|split].
  - intros Hfree Hlt. by rewrite schedule_ahead.
  - intros Hle. destruct (queue w !! jobId newId) eqn:Hj.
    + by rewrite schedule_pending.
    + by rewrite schedule_due.
  - intros Htaken. by rewrite schedule_pending.
Qed.

Lemma create_schedules_witness :
  queue (create "P" 1 "R2" 1000 1001 1501 oneHold).1
    = <[jobId "R2" := expirationJob "R2" 119500]> (queue oneHold) ∧
  queue (create "P" 1 "R2" 1000 1001 121001 oneHold).1 = queue oneHold.
Proof.
  destruct (create_schedules oneHold "P" 1 "R2" 1000 1001 1501
              ("R2", mkReservation "P" 1 ACTIVE 121001))
    as (Hnew & _ & _); [vm_compute; reflexivity|].
  destruct (create_schedules oneHold "P" 1 "R2" 1000 1001 121001
              ("R2", mkReservation "P" 1 ACTIVE 121001))
    as (_ & Hlate & _); [vm_compute; reflexivity|].
  split.
  - apply Hnew; reflexivity.
  - apply Hlate. vm_compute. discriminate.
Defined.

(** ** The worker *)

Lemma process_expire (job : Job) (w : World) :
  process job w = expire (reservationId job) w.
Proof.
  unfold process, try_catch, throw.
  by destruct (expire (reservationId job) w) as [w' [[]|e]].
Qed.

(** X9.  The queue may deliver a job more than once: any number of
    deliveries of a job, one at least, leaves the world that one delivery
    leaves. *)
Theorem redelivery_is_harmless (n : nat) (job : Job) (w : World) :
  deliver (S n) job w = deliver 1 job w.
Proof.
  revert w. induction n as [|n IH]; intros w; [done|].
  change (deliver (S (S n)) job w) with (deliver (S n) job (process job w).1).
  rewrite IH. cbn. rewrite !process_expire. by rewrite expire_twice.
Qed.

(** Under the conditions of success, [create] returns. *)
Lemma create_returns (w : World) (pid : string) (qty : Z) (newId : string)
    (now dateNow scheduleNow : Z) (p : Product) :
  products (store w) !! pid = Some p →
  reservations (store w) !! newId = None →
  qty ≤ availableStock p + freedStock pid now w →
  (create pid qty newId now dateNow scheduleNow w).2
    = Return (newId, {| productId := pid; quantity := qty; status := ACTIVE;
                        expiresAt := dateNow + RESERVATION_DURATION_MS |}).
Proof.
  intros Hp Hnew Hle. unfold create, bind.
  pose proof (create_transaction pid qty newId now dateNow w p Hp) as Ht.
  cbn zeta in Ht.
  destruct (Z.ltb_spec (availableStock p + freedStock pid now w) qty); [lia|].
  destruct (Ht Hnew) as (Hret & _). clear Ht.
  destruct (transaction _ w) as [w1 o]; cbn in *. subst o.
  unfold onQueue, ret; cbn.
  destruct (scheduleExpirationJob _ _ _ _) as [q' [[]|e]] eqn:Hs; cbn; [done|].
  unfold scheduleExpirationJob, try_catch, bind, ret, Queue.getJob,
    Queue.add in Hs.
  repeat (cbn in Hs; case_match; simplify_eq).
Qed.

(** X10.  From [create] to the worker: when the job that a successful
    [create] scheduled is processed, the new reservation is Expired and
    the stock of the product is back to what it was before the
    reservation took its quantity. *)
Theorem scheduled_job_gives_back (w : World) (pid : string) (qty : Z)
    (newId : string) (now dateNow scheduleNow : Z) (p : Product) :
  products (store w) !! pid = Some p →
  reservations (store w) !! newId = None →
  qty ≤ availableStock p + freedStock pid now w →
  queue w !! jobId newId = None →
  scheduleNow < dateNow + 120 * 1000 →
  let c := create pid qty newId now dateNow scheduleNow w in
  ∃ job, queue c.1 !! jobId newId = Some job ∧
         (process job c.1).2 = Return tt ∧
         statusOf (process job c.1).1 newId = Some EXPIRED ∧
         stockOf (process job c.1).1 pid
           = Some (availableStock p + freedStock pid now w).
Proof.
  intros Hp Hnew Hle Hfree Hlt c. subst c.
  pose proof (create_cases pid qty newId now dateNow scheduleNow w) as Hc.
  pose proof (create_queue w pid qty newId now dateNow scheduleNow) as Hq.
  pose proof (create_returns w pid qty newId now dateNow scheduleNow p
                Hp Hnew Hle) as Hret.
  destruct (create _ _ _ _ _ _ w) as [w' [x|e]]; cbn in *; [|done].
  destruct Hc as (p' & Hp' & _ & _ & -> & Hw'). simplify_eq. cbn in Hw'.
  rewrite (Hq _ eq_refl).
  change (120 * 1000) with RESERVATION_DURATION_MS in Hlt.
  rewrite schedule_ahead by done. cbn. rewrite lookup_insert_eq.
  eexists; split; [done|]. rewrite process_expire. cbn.
  set (r := {| productId := pid; quantity := qty; status := ACTIVE;
               expiresAt := dateNow + RESERVATION_DURATION_MS |}) in *.
  assert (reservations (store w') !! newId = Some r) as Hr
    by (rewrite Hw'; cbn; apply lookup_insert_eq).
  assert (products (store w') !! productId r
          = Some (mkProduct (availableStock p + freedStock pid now w - qty)))
    as Hp1 by (rewrite Hw'; cbn; apply lookup_insert_eq).
  rewrite (expire_active w' newId r _ Hr eq_refl Hp1).
  unfold statusOf, stockOf; cbn. rewrite !lookup_insert_eq. cbn.
  repeat split. f_equal. lia.
Qed.

Lemma scheduled_job_gives_back_witness :
  let c := create "P" 1 "R2" 1000 1001 1501 oneHold in
  ∃ job, queue c.1 !! jobId "R2" = Some job ∧
         (process job c.1).2 = Return tt ∧
         statusOf (process job c.1).1 "R2" = Some EXPIRED ∧
         stockOf (process job c.1).1 "P"
           = Some (3 + freedStock "P" 1000 oneHold).
Proof.
  apply (scheduled_job_gives_back oneHold "P" 1 "R2" 1000 1001 1501
           (mkProduct 3)); vm_compute; congruence.
Defined.

(** ** The periodic check *)

Lemma forEach_ext {S A} (l : list A) (f g : A → Async S unit) :
  (∀ x, x ∈ l → ∀ s, f x s = g x s) →
  ∀ s, forEach l f s = forEach l g s.
Proof.
  induction l as [|x l IH]; intros Hfg s; cbn; [done|].
  unfold bind. rewrite (Hfg x) by by left.
  destruct (g x s) as [s' [[]|e]]; [|done].
  apply IH. intros y Hy. apply Hfg. by right.
Qed.

(** A property of the state that every turn of a loop keeps, the loop
    keeps, whether it runs to its end or stops at an exception. *)
Lemma forEach_invariant {S A} (P : S → Prop) (l : list A)
    (body : A → Async S unit) :
  (∀ x s, P s → P (body x s).1) →
  ∀ s, P s → P (forEach l body s).1.
Proof.
  intros Hbody. induction l as [|x l IH]; intros s Hs; cbn; [done|].
  unfold bind. specialize (Hbody x s Hs).
  destruct (body x s) as [s' [[]|e]]; cbn in *; [by apply IH | done].
Qed.

Lemma expire_queue (w : World) (id : string) : queue (expire id w).1 = queue w.
Proof.
  by destruct (expire_cases w id) as [->|(r & p & _ & _ & _ & ->)].
Qed.

Lemma rowsWhere_insert (where_ : Reservation → bool)
    (rs : gmap string Reservation) k v :
  rs !! k = None →
  Prisma.rowsWhere where_ (<[k := v]> rs)
  ≡ₚ (if where_ v then [(k, v)] else []) ++ Prisma.rowsWhere where_ rs.
Proof.
  intros Hk. unfold Prisma.rowsWhere. destruct (where_ v) eqn:Hv.
  - rewrite map_filter_insert_True by done.
    apply map_to_list_insert, map_lookup_filter_None. by left.
  - rewrite map_filter_insert_not'; [done| |].
    + cbn. by rewrite Hv.
    + intros y Hy. congruence.
Qed.

Lemma totalQuantity_app (l1 l2 : list (string * Reservation)) :
  totalQuantity (l1 ++ l2) = totalQuantity l1 + totalQuantity l2.
Proof.
  induction l1 as [|x l1 IH]; cbn; [done|].
  rewrite !totalQuantity_cons, IH. lia.
Qed.

(** Of the rows that the periodic check finds, those of one product hold
    what the lazy expiration of [create] would free for it. *)
Lemma due_of_product now pid (rs : gmap string Reservation) :
  totalQuantity (filter (expiredBy (now + 1) pid)
                   (Prisma.rowsWhere (dueAt now) rs))
  = quantityWhere (staleOf pid now) rs.
Proof.
  induction rs as [|k r rs Hk IH] using map_ind.
  - unfold quantityWhere, Prisma.rowsWhere.
    by rewrite !map_filter_empty, !map_to_list_empty.
  - rewrite quantityWhere_insert by done. rewrite <- IH.
    rewrite (totalQuantity_perm _ _
               (filter_Permutation _ _ _ (rowsWhere_insert _ _ _ r Hk))).
    rewrite filter_app, totalQuantity_app. f_equal.
    unfold dueAt, staleOf.
    destruct (bool_decide (status r = ACTIVE)) eqn:Hst; cbn;
      [|by rewrite andb_false_r].
    rewrite andb_true_r.
    destruct (Z.leb_spec (expiresAt r) now) as [Hle|Hgt]; cbn;
      [|by rewrite andb_false_r].
    rewrite andb_true_r.
    destruct (decide (expiredBy (now + 1) pid (k, r))) as [[Hp _]|Hn]; cbn.
    + rewrite bool_decide_eq_true_2 by done.
      rewrite totalQuantity_cons. cbn. apply Z.add_0_r.
    + rewrite bool_decide_eq_false_2; [done|].
      intros Hp. apply Hn. split; cbn; [done | lia].
Qed.

(** The periodic check is its loop, whatever the loop throws. *)
Lemma checkExpired_loop (now : Z) (w : World) :
  checkExpiredReservations now w
  = ((forEach (Prisma.rowsWhere (dueAt now) (reservations (store w)))
        (λ reservation, expire reservation.1) w).1, Return tt).
Proof.
  destruct w as [d q].
  unfold checkExpiredReservations, try_catch, bind, onStore, ret,
    Prisma.reservation_findMany; cbn.
  change (λ r, bool_decide (status r = ACTIVE) && (expiresAt r <=? now))
    with (dueAt now).
  destruct (Prisma.rowsWhere (dueAt now) (reservations d)) as [|x l]; cbn.
  - by destruct (decide (0 < 0)%nat).
  - destruct (decide (0 < S (length l))%nat); [|lia].
    unfold bind. by destruct (expire x.1 _) as [w1 [[]|e]];
      [destruct (forEach l _ w1) as [w2 [[]|e]]|].
Qed.

(** Recovery is its loop, whatever the loop throws. *)
Lemma recover_loop (now : Z) (w : World) :
  recoverReservations now w
  = ((forEach (Prisma.rowsWhere (λ r, bool_decide (status r = ACTIVE))
                 (reservations (store w)))
        (recoverOne now) w).1, Return tt).
Proof.
  destruct w as [d q].
  unfold recoverReservations, try_catch, bind, onStore, ret,
    Prisma.reservation_findMany; cbn.
  by destruct (forEach _ _ _) as [w2 [[]|e]].
Qed.

Lemma checkExpired_nothing_due (now : Z) (w : World) :
  (∀ k r, reservations (store w) !! k = Some r → status r = ACTIVE →
          now < expiresAt r) →
  checkExpiredReservations now w = (w, Return tt).
Proof.
  intros Hnone. rewrite checkExpired_loop, rowsWhere_none; [done|].
  intros k r Hr. unfold dueAt.
  destruct (bool_decide (status r = ACTIVE)) eqn:Hst; [|done].
  apply bool_decide_eq_true in Hst. specialize (Hnone k r Hr Hst). cbn.
  by destruct (Z.leb_spec (expiresAt r) now); [lia|].
Qed.

(** X11.  A periodic check that finds no Active reservation at or past its
    deadline writes nothing. *)
Theorem sweep_nothing_due (now : Z) (w : World) :
  (∀ k r, reservations (store w) !! k = Some r → status r = ACTIVE →
          now < expiresAt r) →
  checkExpiredReservations now w = (w, Return tt).
Proof. apply checkExpired_nothing_due. Qed.

Lemma sweep_nothing_due_witness :
  checkExpiredReservations 119999 oneHold = (oneHold, Return tt).
Proof.
  apply (sweep_nothing_due 119999 oneHold).
  intros k r Hr _. cbn in Hr.
  apply lookup_singleton_Some in Hr as [_ <-]. reflexivity.
Defined.

(** What the periodic check does, on a store whose Active reservations
    have their products. *)
Lemma sweep_effect (now : Z) (w : World) :
  activeHaveProducts w →
  let s := checkExpiredReservations now w in
  s.2 = Return tt ∧
  queue s.1 = queue w ∧
  (∀ k, reservations (store s.1) !! k
        = (λ r, if dueAt now r then setStatus EXPIRED r else r)
            <$> reservations (store w) !! k) ∧
  (∀ pid, stockOf s.1 pid = (λ a, a + freedStock pid now w) <$> stockOf w pid).
Proof.
  intros Hfk s. subst s. rewrite checkExpired_loop. cbn.
  set (l := Prisma.rowsWhere (dueAt now) (reservations (store w))).
  assert (∀ k r, (k, r) ∈ l ↔
                 reservations (store w) !! k = Some r ∧ dueAt now r = true)
    as Hl by (intros; apply elem_of_rowsWhere).
  assert (∀ r, dueAt now r = true → status r = ACTIVE ∧ expiresAt r < now + 1)
    as Hdue.
  { intros r [Hst Hle%Z.leb_le]%andb_true_iff.
    apply bool_decide_eq_true in Hst. split; [done | lia]. }
  split; [done|]. split.
  { apply (forEach_invariant (λ w', queue w' = queue w)); [|done].
    intros x w' <-. apply expire_queue. }
  rewrite (forEach_ext l _ (recoverOne (now + 1))).
  2:{ intros [k r] Hin w'. apply Hl in Hin as [_ Hd].
      symmetry. apply recoverOne_past. by apply Hdue. }
  destruct (forEach_recoverOne (now + 1) l (NoDup_fst_map_to_list _) w)
    as (_ & Hout & Hin & Hprod).
  { intros k r [Hr Hd]%Hl. destruct (Hdue r Hd) as [Hst _].
    repeat (split; [done|]). by eapply Hfk. }
  cbn zeta in *. split.
  - intros k. destruct (reservations (store w) !! k) as [r|] eqn:Hr; cbn.
    + destruct (dueAt now r) eqn:Hd.
      * destruct (Hin k r) as ((-> & _) & _); [by apply Hl | | done].
        by apply Hdue.
      * destruct (Hout k) as [-> _]; [|done].
        intros [[k' r'] [-> Hkr]]%list_elem_of_fmap.
        apply Hl in Hkr as [Hr' Hd']. cbn in *. congruence.
    + destruct (Hout k) as [-> _]; [|done].
      intros [[k' r'] [-> Hkr]]%list_elem_of_fmap.
      apply Hl in Hkr as [Hr' _]. cbn in *. congruence.
  - intros pid. unfold stockOf. rewrite Hprod, <- !option_fmap_compose.
    unfold l, freedStock. rewrite due_of_product.
    by destruct (products (store w) !! pid).
Qed.

(** X12.  On a store whose Active reservations have their products, the
    periodic check does not throw, leaves the queue as it was, expires
    the Active reservations whose deadline is at or before the clock and
    no other, and adds to the stock of each product the quantities of its
    reservations that it expired. *)
Theorem sweep_expires_all_due (now : Z) (w : World) :
  activeHaveProducts w →
  (checkExpiredReservations now w).2 = Return tt ∧
  queue (checkExpiredReservations now w).1 = queue w ∧
  (∀ k r, reservations (store w) !! k = Some r →
          reservations (store (checkExpiredReservations now w).1) !! k
          = Some (if bool_decide (status r = ACTIVE) && (expiresAt r <=? now)
                  then setStatus EXPIRED r else r)) ∧
  (∀ k, reservations (store w) !! k = None →
        reservations (store (checkExpiredReservations now w).1) !! k = None) ∧
  (∀ pid a, stockOf w pid = Some a →
            stockOf (checkExpiredReservations now w).1 pid
            = Some (a + freedStock pid now w)).
Proof.
  intros Hfk. destruct (sweep_effect now w Hfk) as (Hret & Hq & Hrows & Hst).
  repeat (split; [done|]). split; [|split].
  - intros k r Hr. by rewrite Hrows, Hr.
  - intros k Hr. by rewrite Hrows, Hr.
  - intros pid a Ha. by rewrite Hst, Ha.
Qed.

(** X13.  The periodic check run again at the same instant changes
    nothing more. *)
Theorem sweep_idempotent (now : Z) (w : World) :
  activeHaveProducts w →
  checkExpiredReservations now (checkExpiredReservations now w).1
  = ((checkExpiredReservations now w).1, Return tt).
Proof.
  intros Hfk. destruct (sweep_effect now w Hfk) as (_ & _ & Hrows & _).
  apply checkExpired_nothing_due. intros k r'. rewrite Hrows.
  destruct (reservations (store w) !! k) as [r|]; cbn; [|done].
  destruct (dueAt now r) eqn:Hd; intros [= <-]; cbn; [done|].
  intros Hst. unfold dueAt in Hd. rewrite bool_decide_eq_true_2 in Hd by done.
  cbn in Hd. by destruct (Z.leb_spec (expiresAt r) now); [|lia].
Qed.

Lemma sweep_expires_all_due_witness :
  let s := checkExpiredReservations 120000 atRestart in
  statusOf s.1 "RA" = Some EXPIRED ∧
  statusOf s.1 "RB" = Some EXPIRED ∧
  statusOf s.1 "RC" = Some ACTIVE ∧
  stockOf s.1 "P" = Some (0 + freedStock "P" 120000 atRestart).
Proof.
  destruct (sweep_expires_all_due 120000 atRestart atRestart_products)
    as (_ & _ & Hrows & _ & Hstock).
  unfold statusOf. cbn zeta.
  rewrite (Hrows "RA" (mkReservation "P" 1 ACTIVE 119000)) by reflexivity.
  rewrite (Hrows "RB" (mkReservation "P" 2 ACTIVE 120000)) by reflexivity.
  rewrite (Hrows "RC" (mkReservation "P" 3 ACTIVE 125000)) by reflexivity.
  repeat (split; [reflexivity|]). apply Hstock. reflexivity.
Defined.

Lemma sweep_idempotent_witness :
  checkExpiredReservations 120000 (checkExpiredReservations 120000 atRestart).1
  = ((checkExpiredReservations 120000 atRestart).1, Return tt).
Proof. apply (sweep_idempotent 120000 atRestart), atRestart_products. Defined.

(** ** Recovery and the periodic check, on every store *)

(** X14.  Recovery leaves alone the reservations that are not Active:
    each is as it was, and so is whatever the queue holds under its
    key. *)
Theorem recover_leaves_terminal (now : Z) (w : World) (k : string)
    (r : Reservation) :
  activeHaveProducts w →
  reservations (store w) !! k = Some r →
  status r ≠ ACTIVE →
  reservations (store (recoverReservations now w).1) !! k = Some r ∧
  queue (recoverReservations now w).1 !! jobId k = queue w !! jobId k.
Proof.
  intros Hfk Hr Hst. rewrite recover_loop. cbn.
  set (l := Prisma.rowsWhere (λ r, bool_decide (status r = ACTIVE))
              (reservations (store w))).
  destruct (forEach_recoverOne now l (NoDup_fst_map_to_list _) w)
    as (_ & Hout & _).
  { intros k' r' [Hr' Hst'%bool_decide_eq_true]%elem_of_rowsWhere.
    repeat (split; [done|]). by eapply Hfk. }
  cbn zeta in Hout. destruct (Hout k) as [-> ->]; [|done].
  intros [[k' r'] [-> Hkr]]%list_elem_of_fmap.
  apply elem_of_rowsWhere in Hkr as [Hr' Hst'%bool_decide_eq_true].
  cbn in *. congruence.
Qed.

Lemma recover_leaves_terminal_witness :
  let w := (complete "R1" 1000 staleHold).1 in
  reservations (store (recoverReservations 130000 w).1) !! "R1"
    = Some (setStatus COMPLETED held) ∧
  queue (recoverReservations 130000 w).1 !! jobId "R1" = queue w !! jobId "R1".
Proof.
  apply (recover_leaves_terminal 130000 (complete "R1" 1000 staleHold).1 "R1"
           (setStatus COMPLETED held)).
  - intros k r Hr Hst. vm_compute in Hr.
    destruct (decide (k = "R1")) as [->|Hne].
    + vm_compute in Hr. injection Hr as <-. discriminate.
    + exfalso. revert Hr. change (({["R1" := setStatus COMPLETED held]}
                                   : gmap string Reservation) !! k ≠ Some r).
      by rewrite lookup_singleton_ne.
  - reflexivity.
  - discriminate.
Defined.

Lemma recoverOne_keeps (P : World → Prop) (now : Z) :
  (∀ w id, P w → P (expire id w).1) →
  (∀ d q q', P {| store := d; queue := q |} → P {| store := d; queue := q' |}) →
  ∀ x w, P w → P (recoverOne now x w).1.
Proof.
  intros Hexpire Hqueue [k r] w Hw.
  destruct (Z.lt_total (expiresAt r) now) as [Hlt|[Heq|Hgt]].
  - rewrite (recoverOne_past _ _ _ _ Hlt). by apply Hexpire.
  - by rewrite (recoverOne_at_deadline _ _ _ _ Heq).
  - rewrite (recoverOne_ahead _ _ _ _ Hgt). cbn.
    destruct w as [d q]. by eapply Hqueue.
Qed.

(** X15.  Recovery and the periodic check make and lose no stock, on
    every store and also when one of their [expire] calls throws: when
    the stock of a product and the quantity held by its Active and
    Completed reservations add up to [S] before, they add up to [S]
    after, and stocks and quantities that were not negative are not
    negative after. *)
Theorem background_paths_conserve (S : Z) (pid : string) (now : Z) (w : World) :
  accountsFor S pid w → wellStocked w →
  (accountsFor S pid (recoverReservations now w).1 ∧
   wellStocked (recoverReservations now w).1) ∧
  (accountsFor S pid (checkExpiredReservations now w).1 ∧
   wellStocked (checkExpiredReservations now w).1).
Proof.
  intros Hacc Hws.
  assert (∀ w id, accountsFor S pid w ∧ wellStocked w →
                  accountsFor S pid (expire id w).1 ∧ wellStocked (expire id w).1)
    as Hexpire.
  { intros w0 id [Ha Hw]. split.
    - by apply (serve_accountsFor S pid w0 (Expire id)).
    - by apply (serve_wellStocked w0 (Expire id)). }
  rewrite recover_loop, checkExpired_loop. cbn. split.
  - apply (forEach_invariant (λ w, accountsFor S pid w ∧ wellStocked w));
      [|done].
    apply (recoverOne_keeps (λ w, accountsFor S pid w ∧ wellStocked w));
      [done|]. by intros d q q' [Ha Hw].
  - apply (forEach_invariant (λ w, accountsFor S pid w ∧ wellStocked w));
      [|done].
    intros x w0. apply Hexpire.
Qed.

Lemma background_paths_conserve_witness :
  (accountsFor 6 "P" (recoverReservations 120000 atRestart).1 ∧
   wellStocked (recoverReservations 120000 atRestart).1) ∧
  (accountsFor 6 "P" (checkExpiredReservations 120000 atRestart).1 ∧
   wellStocked (checkExpiredReservations 120000 atRestart).1).
Proof.
  apply (background_paths_conserve 6 "P" 120000 atRestart).
  - exists (mkProduct 0). by vm_compute.
  - split.
    + intros pid p Hp. cbn in Hp.
      apply lookup_singleton_Some in Hp as [_ <-]. cbn. lia.
    + intros id r Hr.
      assert (map_Forall (λ _ r, 0 ≤ quantity r)
                (reservations (store atRestart))) as Hall
        by (apply (bool_decide_unpack _); by vm_compute).
      by apply (Hall id r).
Defined.

(** ** Sequences of requests *)

Lemma stock_never_negative_witness :
  wellStocked
    (serveAll lastUnit
       [ Create "P" 1 "R1" 0 0 0; Complete "R1" 120001;
         Complete "R1" 120002; Expire "R1" ]).
Proof.
  apply stock_never_negative.
  - apply wellStocked_lastUnit.
  - cbn. repeat split; lia.
Defined.

(** ** [expireReservationsAndRestoreStock] *)

(** X16.  [expireReservationsAndRestoreStock] trusts its caller.  With no
    row it does nothing.  With rows, it sets Expired every stored
    reservation whose id is listed, whatever its status and its product,
    leaves the others as they are, and adds the listed quantities to the
    stock of the one product it is given.  When that product does not
    exist it throws after the statuses are written: it is the
    transaction of the caller that takes them back. *)
Theorem expire_batch (rows : list (string * Reservation)) (pid : string)
    (d : Db) :
  (rows = [] → expireReservationsAndRestoreStock rows pid d = (d, Return tt)) ∧
  (rows ≠ [] →
   let flipped :=
     {| products := products d;
        reservations :=
          map_imap (λ k r, Some (if bool_decide (k ∈ rows.*1)
                                 then setStatus EXPIRED r else r))
            (reservations d) |} in
   match products d !! pid with
   | Some p =>
       expireReservationsAndRestoreStock rows pid d
       = ({| products := <[pid := addStock (totalQuantity rows) p]> (products d);
             reservations := reservations flipped |}, Return tt)
   | None =>
       expireReservationsAndRestoreStock rows pid d
       = (flipped, Throw RecordNotFound)
   end).
Proof.
  split.
  - by intros ->.
  - intros Hrows. destruct rows as [|x rows]; [done|].
    unfold expireReservationsAndRestoreStock, bind, ret,
      Prisma.reservation_updateMany, Prisma.product_increment; cbn.
    destruct (decide (S (length rows) = 0%nat)); [lia|]. cbn.
    by destruct (products d !! pid).
Qed.

Lemma expire_batch_witness :
  let d := {| products := {["P" := mkProduct 3]};
              reservations :=
                {[ "R1" := setStatus COMPLETED held;
                   "R3" := mkReservation "Q" 1 ACTIVE 140000 ]} |} in
  (expireReservationsAndRestoreStock [("R1", held)] "P" d).2 = Return tt ∧
  status <$> reservations
               (expireReservationsAndRestoreStock [("R1", held)] "P" d).1 !! "R1"
    = Some EXPIRED ∧
  products (expireReservationsAndRestoreStock [("R1", held)] "P" d).1 !! "P"
    = Some (mkProduct 5) ∧
  (expireReservationsAndRestoreStock [("R1", held)] "Q" d).2
    = Throw RecordNotFound ∧
  status <$> reservations
               (expireReservationsAndRestoreStock [("R1", held)] "Q" d).1 !! "R1"
    = Some EXPIRED.
Proof.
  intros d.
  destruct (expire_batch [("R1", held)] "P" d) as [_ HP].
  destruct (expire_batch [("R1", held)] "Q" d) as [_ HQ].
  specialize (HP ltac:(discriminate)). specialize (HQ ltac:(discriminate)).
  cbn zeta in HP, HQ.
  change (products d !! "P") with (Some (mkProduct 3)) in HP.
  change (products d !! "Q") with (@None Product) in HQ.
  rewrite HP, HQ. vm_compute. done.
Defined.

(** ** [ProductsService] *)

(** The outcomes of [decrementStock]. *)
Lemma decrementStock_outcomes (pid : string) (qty : Z) (d : Db) :
  match decrementStock pid qty d with
  | (d', inl (StockProductNotFound pid')) =>
      d' = d ∧ pid' = pid ∧ products d !! pid = None
  | (d', inl (StockInsufficient available requested)) =>
      d' = d ∧ requested = qty ∧ available < qty ∧
      availableStock <$> products d !! pid = Some available
  | (d', inl (StockStoreError e)) => False
  | (d', inr updated) =>
      ∃ p, products d !! pid = Some p ∧ qty ≤ availableStock p ∧
           availableStock updated = availableStock p - qty ∧
           0 ≤ availableStock updated ∧
           d' = {| products := <[pid := updated]> (products d);
                   reservations := reservations d |}
  end.
Proof.
  unfold decrementStock, Prisma.product_findUnique, Prisma.product_decrement,
    Prisma.product_increment; cbn.
  destruct (products d !! pid) as [p|] eqn:Hp; cbn; [|done].
  destruct (Z.ltb_spec (availableStock p) qty); cbn; [done|].
  exists p. repeat split; lia.
Qed.


(** X17.  [decrementStock] either fails and leaves the database as it
    was, or finds the product with at least the quantity in stock and
    writes its stock less the quantity, which is not negative; it touches
    no other product and no reservation. *)
Theorem decrementStock_cases (pid : string) (qty : Z) (d : Db) :
  match decrementStock pid qty d with
  | (d', inl (StockProductNotFound pid')) =>
      d' = d ∧ pid' = pid ∧ products d !! pid = None
  | (d', inl (StockInsufficient available requested)) =>
      d' = d ∧ requested = qty ∧ available < qty ∧
      availableStock <$> products d !! pid = Some available
  | (d', inl (StockStoreError e)) => False
  | (d', inr updated) =>
      ∃ p, products d !! pid = Some p ∧ qty ≤ availableStock p ∧
           availableStock updated = availableStock p - qty ∧
           0 ≤ availableStock updated ∧
           d' = {| products := <[pid := updated]> (products d);
                   reservations := reservations d |}
  end.
Proof. apply decrementStock_outcomes. Qed.

(** X18.  [incrementStock] of the quantity that a successful
    [decrementStock] took gives back the database as it was. *)
Theorem increment_undoes_decrement (pid : string) (qty : Z) (d : Db)
    (updated : Product) :
  (decrementStock pid qty d).2 = inr updated →
  incrementStock pid qty (decrementStock pid qty d).1
  = (d, Return (addStock qty updated)).
Proof.
  pose proof (decrementStock_outcomes pid qty d) as Hc.
  destruct (decrementStock pid qty d) as [d' [e|u]]; cbn; [done|].
  intros [= ->]. destruct Hc as (p & Hp & _ & Hu & _ & ->).
  unfold incrementStock, Prisma.product_increment; cbn.
  rewrite lookup_insert_eq, insert_insert_eq.
  assert (addStock qty updated = p) as ->.
  { destruct p as [a], updated as [b]; unfold addStock; cbn in *.
    f_equal. lia. }
  rewrite insert_id by done. by destruct d.
Qed.

Lemma increment_undoes_decrement_witness :
  incrementStock "P" 2 (decrementStock "P" 2 (store oneHold)).1
  = (store oneHold, Return (addStock 2 (mkProduct 1))).
Proof.
  apply (increment_undoes_decrement "P" 2 (store oneHold) (mkProduct 1)).
  reflexivity.
Defined.

(** ** The countdown of the client *)

(** X19.  The client and the periodic check agree on the instant: for an
    Active reservation, the countdown of the client reads expired exactly
    when the periodic check of the server would expire it, the deadline
    instant included. *)
Theorem client_expiry_matches_sweep (r : Reservation) (now : Z) :
  status r = ACTIVE →
  isExpired (expiresAt r) now = dueAt now r.
Proof.
  intros Hst. unfold isExpired, getRemainingTime, dueAt.
  rewrite bool_decide_eq_true_2 by done. cbn.
  destruct (Z.leb_spec (expiresAt r) now); [apply Z.eqb_eq | apply Z.eqb_neq];
    lia.
Qed.

Lemma client_expiry_matches_sweep_witness :
  isExpired (expiresAt held) 120000 = dueAt 120000 held ∧
  isExpired (expiresAt held) 119999 = dueAt 119999 held.
Proof.
  split; apply client_expiry_matches_sweep; reflexivity.
Defined.

Lemma two_digits (m : Z) :
  0 ≤ m < 100 →
  ∃ a b, padStart0 2 (pretty m) = String a (String b EmptyString).
Proof.
  intros Hm.
  assert (Forall (λ n, String.length (padStart0 2 (pretty (Z.of_nat n))) = 2%nat)
            (seq 0 100)) as Hall
    by (apply (bool_decide_unpack _); by vm_compute).
  rewrite Forall_forall in Hall. specialize (Hall (Z.to_nat m)).
  rewrite Z2Nat.id in Hall by lia.
  destruct (padStart0 2 (pretty m)) as [|a [|b [|c s]]];
    [exfalso..|eauto|exfalso];
    (assert (Z.to_nat m ∈ seq 0 100) as Hin by (apply elem_of_seq; lia));
    specialize (Hall Hin); cbn in Hall; lia.
Qed.

(** X20.  For a remaining time of less than a hundred minutes, [formatTime]
    gives five characters, two for the minutes, a colon, two for the
    seconds; and the milliseconds within the second do not show. *)
Theorem formatTime_shape (ms : Z) :
  0 ≤ ms < 100 * 60 * 1000 →
  String.length (formatTime ms) = 5%nat ∧
  String.get 2 (formatTime ms) = Some ":"%char ∧
  formatTime (ms - ms `mod` 1000) = formatTime ms.
Proof.
  intros Hms. unfold formatTime.
  assert ((ms - ms `mod` 1000) / 1000 = ms / 1000) as ->.
  { rewrite (Z.div_mod ms 1000) at 1 by lia.
    replace (1000 * (ms / 1000) + ms `mod` 1000 - ms `mod` 1000)
      with (ms / 1000 * 1000) by lia.
    by rewrite Z.div_mul. }
  assert (0 ≤ ms / 1000 < 6000) as Hs.
  { split; [apply Z.div_pos; lia | apply Z.div_lt_upper_bound; lia]. }
  destruct (two_digits (ms / 1000 / 60)) as (a & b & ->).
  { split; [apply Z.div_pos; lia | apply Z.div_lt_upper_bound; lia]. }
  destruct (two_digits (Z.rem (ms / 1000) 60)) as (c & e & ->).
  { rewrite Z.rem_mod_nonneg by lia.
    pose proof (Z.mod_pos_bound (ms / 1000) 60). lia. }
  done.
Qed.

Lemma formatTime_shape_witness :
  String.length (formatTime 119999) = 5%nat ∧
  String.get 2 (formatTime 119999) = Some ":"%char ∧
  formatTime (119999 - 119999 `mod` 1000) = formatTime 119999.
Proof. apply (formatTime_shape 119999). split; [discriminate | reflexivity]. Defined.

(** ** Errors of the background paths *)

(** X21.  Recovery and the periodic check never surface an error: what
    one of their [expire] calls throws ends the run and is swallowed.  The
    worker, on the contrary, hands to the queue whatever [expire] throws,
    and changes the world as [expire] does. *)
Theorem background_errors (now : Z) (job : Job) (w : World) :
  (recoverReservations now w).2 = Return tt ∧
  (checkExpiredReservations now w).2 = Return tt ∧
  process job w = expire (reservationId job) w.
Proof.
  rewrite recover_loop, checkExpired_loop.
  split; [done|]. split; [done|]. apply process_expire.
Qed.

(** ** [scheduleExpirationJob] and the jobs of the others *)


